(** * Route geometry resolution of [spec_creation/autofill_eval_spec.py]

    A shallow embedding of the functions that fill in the route of a trip
    leg: the OSRM waypoint router, the polyline decoder call, the stitching
    of an OSM relation out of its ways, the dispatcher
    [validate_and_fill_leg], and the stages that run over the
    calibration tests, the evaluation trips and the sensing settings.

    Conventions of the embedding.
    - Python integers are [Z]; list positions are [nat].
    - Latitudes and longitudes are floats that the program only moves
      around (it never computes with them), so they are values of an
      arbitrary type [num].
    - A coordinate is a Python list of numbers, [list num]:
      [coords_swap] reverses such a list whatever its length.
    - A raised exception is an [Err]; the calls to the outside world (the
      OSM API, the OSRM client, the polyline codec) are answered by the
      fields of an environment [Env] and written to a trace, in order.
    - [print] and [logging.debug] lines are left out. *)

From stdpp Require Import gmap strings list.

Open Scope Z_scope.

(** ** Exceptions and results *)

(** The key of a failed dictionary lookup. *)
Inductive pykey : Type :=
| KStr (s : string)
| KInt (z : Z).

(** The exceptions the module can raise. An assertion carries its format
    string and the arguments of [%]; [ExternalError] stands for whatever
    an outside call raises. *)
Inductive exn : Type :=
| AssertionError (fmt : string) (args : list Z)
| NameError (name : string)
| UnboundLocalError (name : string)
| KeyError (k : pykey)
| IndexError
| ValueError
| TypeError
| NotImplementedError (msg : string)
| ExternalError (msg : string).

Inductive result (A : Type) : Type :=
| Ok (a : A)
| Err (e : exn).
Arguments Ok {A} a.
Arguments Err {A} e.

Definition rbind {A B : Type} (r : result A) (f : A -> result B) : result B :=
  match r with
  | Ok a => f a
  | Err e => Err e
  end.

(** A [for] loop over a list whose body may raise. *)
Fixpoint rfold {S X : Type} (body : S -> X -> result S) (l : list X) (s : S)
  : result S :=
  match l with
  | [] => Ok s
  | x :: l' => rbind (body s x) (rfold body l')
  end.

(** ** Python list operations *)

(** [l.index(x)]: the first position of [x], [ValueError] when absent. *)
Fixpoint index (l : list Z) (x : Z) : result nat :=
  match l with
  | [] => Err ValueError
  | y :: l' =>
      if y =? x then Ok 0%nat
      else rbind (index l' x) (fun i => Ok (S i))
  end.

(** [l[i:j]] for positions [i], [j] that are not negative. *)
Definition slice {A : Type} (l : list A) (i j : nat) : list A :=
  take (j - i) (drop i l).

(** [l[-1]]. *)
Definition last_item {A : Type} (l : list A) : result A :=
  match last l with
  | Some x => Ok x
  | None => Err IndexError
  end.

Section Autofill.

(** The type of latitudes and longitudes. *)
Context {num : Type}.

(** ** Data of the OSM API *)

(** The [data] of a node: what [NodeGet] returns and what a node entry of
    [WayFull] carries. *)
Record node_data : Type := {
  node_id : Z;
  node_lat : num;
  node_lon : num;
}.

(** The [data] of a way entry. *)
Record way_data : Type := {
  way_id : Z;
  nd : list Z;
}.

(** An entry of [WayFull]: a dictionary with a [type] and a [data]. *)
Inductive entry : Type :=
| ENode (d : node_data)
| EWay (d : way_data)
| EOther (type : string).

(** A member of a relation. *)
Record member_data : Type := {
  type : string;
  ref : Z;
  role : string;
}.

Record relation_data : Type := {
  member : list member_data;
}.

(** ** Legs *)

(** A location: a dictionary in which the keys [osm_id] and
    [coordinates] may be missing. *)
Record Loc : Type := {
  osm_id : option Z;
  coordinates : option (list num);
}.

(** A leg [t]. The keys [start_loc] and [end_loc] are always there, with
    the value [None] or a location; every other key may be missing. *)
Record Leg : Type := {
  mode : option string;
  start_loc : option Loc;
  end_loc : option Loc;
  route_waypoints : option (list Z);
  waypoint_coords : option (list (list num));
  polyline : option string;
  relation : option Z;
  route_coords : option (list (list num));
}.

Definition set_coordinates (loc : Loc) (c : list num) : Loc :=
  {| osm_id := osm_id loc; coordinates := Some c |}.

Definition set_start_loc (t : Leg) (l : option Loc) : Leg :=
  {| mode := mode t; start_loc := l; end_loc := end_loc t;
     route_waypoints := route_waypoints t;
     waypoint_coords := waypoint_coords t; polyline := polyline t;
     relation := relation t; route_coords := route_coords t |}.

Definition set_end_loc (t : Leg) (l : option Loc) : Leg :=
  {| mode := mode t; start_loc := start_loc t; end_loc := l;
     route_waypoints := route_waypoints t;
     waypoint_coords := waypoint_coords t; polyline := polyline t;
     relation := relation t; route_coords := route_coords t |}.

Definition set_waypoint_coords (t : Leg) (w : list (list num)) : Leg :=
  {| mode := mode t; start_loc := start_loc t; end_loc := end_loc t;
     route_waypoints := route_waypoints t;
     waypoint_coords := Some w; polyline := polyline t;
     relation := relation t; route_coords := route_coords t |}.

Definition set_route_coords (t : Leg) (r : list (list num)) : Leg :=
  {| mode := mode t; start_loc := start_loc t; end_loc := end_loc t;
     route_waypoints := route_waypoints t;
     waypoint_coords := waypoint_coords t; polyline := polyline t;
     relation := relation t; route_coords := Some r |}.

(** ** The outside world *)

(** The answers of the collaborators. [get_route_points] is the function
    of the repository's [osrm] module, which is not part of this file;
    [decode] is [polyline.PolylineCodec().decode]. *)
Record Env : Type := {
  NodeGet : Z -> result node_data;
  WayFull : Z -> result (list entry);
  RelationGet : Z -> result relation_data;
  get_route_points :
    string -> list (option (list num)) -> list (string * string) ->
    result (list (list num));
  decode : string -> result (list (list num));
}.

(** One call to a collaborator, with its arguments. *)
Inductive call : Type :=
| CallNodeGet (node_id : Z)
| CallWayFull (wid : Z)
| CallRelationGet (rid : Z)
| CallRoutePoints (mode : string) (coords : list (option (list num)))
    (params : list (string * string))
| CallDecode (encoded : string).

(** A computation: its result or exception, and the calls it made. *)
Definition M (A : Type) : Type := (result A * list call)%type.

Definition ret {A : Type} (a : A) : M A := (Ok a, []).

Definition raise {A : Type} (e : exn) : M A := (Err e, []).

Definition lift {A : Type} (r : result A) : M A := (r, []).

Definition bind {A B : Type} (m : M A) (f : A -> M B) : M B :=
  match m with
  | (Ok a, tr) => let '(r, tr') := f a in (r, tr ++ tr')
  | (Err e, tr) => (Err e, tr)
  end.

(** A call to a collaborator: the answer, and the call in the trace. *)
Definition outside {A : Type} (c : call) (answer : result A) : M A :=
  (answer, [c]).

Notation "'let*' x := m 'in' k" := (bind m (fun x => k))
  (at level 10, x pattern, m at level 100, k at level 200).

(** A [for] loop over a list whose body may raise or call out. *)
Fixpoint mfold {S X : Type} (body : S -> X -> M S) (l : list X) (s : S)
  : M S :=
  match l with
  | [] => ret s
  | x :: l' => let* s' := body s x in mfold body l' s'
  end.

(** A list comprehension [[f(x) for x in l]]. *)
Fixpoint mmap {X Y : Type} (f : X -> M Y) (l : list X) : M (list Y) :=
  match l with
  | [] => ret []
  | x :: l' => let* y := f x in let* ys := mmap f l' in ret (y :: ys)
  end.

Variable env : Env.

(** ** The functions of the module *)

(** [node_to_geojson_coords]: the pair [lon, lat] of a node. *)
Definition node_to_geojson_coords (node_id : Z) : M (list num) :=
  let* node_details := outside (CallNodeGet node_id) (NodeGet env node_id) in
  ret [node_lon node_details; node_lat node_details].

Definition overview_geometry_params : list (string * string) :=
  [("overview", "full"); ("geometries", "polyline"); ("steps", "false")].

Definition osrm_mode (mode : string) : bool :=
  bool_decide (mode = "CAR") || bool_decide (mode = "WALKING")
  || bool_decide (mode = "BICYCLING") || bool_decide (mode = "BUS").

(** [get_route_coords] *)
Definition get_route_coords (mode : string)
    (waypoint_coords : list (option (list num))) : M (list (list num)) :=
  if osrm_mode mode then
    let* route_coords :=
      outside (CallRoutePoints mode waypoint_coords overview_geometry_params)
        (get_route_points env mode waypoint_coords overview_geometry_params) in
    ret route_coords
  else raise (NotImplementedError "OSRM does not support train modes at this time").

(** [_fill_coords_from_id]: the location after the assignment to its
    [coordinates], and the value returned. *)
Definition _fill_coords_from_id (loc : option Loc)
  : M (option Loc * option (list num)) :=
  match loc with
  | None => ret (None, None)
  | Some l =>
      match osm_id l with
      | None => raise (KeyError (KStr "osm_id"))
      | Some i =>
          let* c := node_to_geojson_coords i in
          ret (Some (set_coordinates l c), Some c)
      end
  end.

(** [coords_swap] *)
Definition coords_swap (lon_lat : list num) : list num := reverse lon_lat.

(** [get_route_from_osrm]: the leg, in which [waypoint_coords] may have
    been set, and the route. *)
Definition get_route_from_osrm (t : Leg)
    (start_coords end_coords : option (list num))
  : M (Leg * list (list num)) :=
  let* (t, waypoint_coords) :=
    match route_waypoints t with
    | Some waypoints =>
        let* waypoint_coords := mmap node_to_geojson_coords waypoints in
        ret (set_waypoint_coords t waypoint_coords, waypoint_coords)
    | None =>
        match waypoint_coords t with
        | Some waypoint_coords => ret (t, waypoint_coords)
        | None => raise (UnboundLocalError "waypoint_coords")
        end
    end in
  let* m := match mode t with
       | Some m => ret m
       | None => raise (KeyError (KStr "mode"))
       end in
  let* route_coords :=
    get_route_coords m
      ([start_coords] ++ map Some waypoint_coords ++ [end_coords]) in
  ret (t, route_coords).

(** [get_route_from_polyline] *)
Definition get_route_from_polyline (t : Leg) : M (list (list num)) :=
  match polyline t with
  | Some p => outside (CallDecode p) (decode env p)
  | None => raise (KeyError (KStr "polyline"))
  end.

(** [get_way_list] *)
Definition get_way_list_step (wl : list Z) (member : member_data)
  : result (list Z) :=
  if bool_decide (type member ≠ "relation") then
    if bool_decide (type member = "way")
       && bool_decide (role member ≠ "platform")
    then Ok (wl ++ [ref member])
    else Ok wl
  else
    Err (AssertionError
           "This is a parent relation for child %d, expecting only child relations"
           [ref member]).

Definition get_way_list (relation_details : relation_data)
  : result (list Z) :=
  rfold get_way_list_step (member relation_details) [].

(** The state of the loop of [get_coords_for_way]: the dictionaries
    [lat] and [lon], the list [coords_list], and [ordered_node_array],
    which is not bound before the first way entry. *)
Record way_state : Type := {
  lat : gmap Z num;
  lon : gmap Z num;
  coords_list : list (list num);
  ordered_node_array : option (list Z);
}.

(** The inner loop [for on in ordered_node_array]. *)
Definition append_coord (lat lon : gmap Z num) (coords_list : list (list num))
    (on : Z) : result (list (list num)) :=
  match lat !! on with
  | None => Err (KeyError (KInt on))
  | Some la =>
      match lon !! on with
      | None => Err (KeyError (KInt on))
      | Some lo => Ok (coords_list ++ [[la; lo]])
      end
  end.

(** The test [prev_last_node != -1 and ordered_node_array[-1] ==
    prev_last_node]; the second operand is evaluated only when the first
    holds. *)
Definition reversing (prev_last_node : Z) (ordered_node_array : list Z)
  : result bool :=
  if bool_decide (prev_last_node ≠ -1) then
    rbind (last_item ordered_node_array)
      (fun l => Ok (bool_decide (l = prev_last_node)))
  else Ok false.

(** The body of the loop [for e in way_details]. The message of the
    assertion is evaluated only when the assertion fails; it reads the
    name [wl], which is bound neither in the function nor in the module. *)
Definition way_entry_step (wid prev_last_node : Z) (st : way_state)
    (e : entry) : result way_state :=
  match e with
  | ENode d =>
      Ok {| lat := <[node_id d := node_lat d]> (lat st);
            lon := <[node_id d := node_lon d]> (lon st);
            coords_list := coords_list st;
            ordered_node_array := ordered_node_array st |}
  | EWay d =>
      if bool_decide (way_id d = wid) then
        rbind (reversing prev_last_node (nd d)) (fun b =>
        let ordered_node_array := if b then reverse (nd d) else nd d in
        rbind (rfold (append_coord (lat st) (lon st)) ordered_node_array
                 (coords_list st)) (fun coords_list =>
        Ok {| lat := lat st; lon := lon st;
              coords_list := coords_list;
              ordered_node_array := Some ordered_node_array |}))
      else Err (NameError "wl")
  | EOther _ => Ok st
  end.

Definition way_state_init : way_state :=
  {| lat := ∅; lon := ∅; coords_list := []; ordered_node_array := None |}.

(** The loop of [get_coords_for_way] and its [return]. *)
Definition coords_of_way_details (wid prev_last_node : Z)
    (way_details : list entry) : result (list Z * list (list num)) :=
  rbind (rfold (way_entry_step wid prev_last_node) way_details way_state_init)
    (fun st =>
       match ordered_node_array st with
       | Some ordered_node_array => Ok (ordered_node_array, coords_list st)
       | None => Err (UnboundLocalError "ordered_node_array")
       end).

(** [get_coords_for_way] *)
Definition get_coords_for_way (wid prev_last_node : Z)
  : M (list Z * list (list num)) :=
  let* way_details := outside (CallWayFull wid) (WayFull env wid) in
  lift (coords_of_way_details wid prev_last_node way_details).

(** The body of the loop [for wid in wl] of [get_coords_for_relation],
    on the triple of [on_list], [coords_list] and [prev_last_node]. *)
Definition relation_step (st : list Z * list (list num) * Z) (wid : Z)
  : M (list Z * list (list num) * Z) :=
  let '(on_list, coords_list, prev_last_node) := st in
  let* (w_on_list, w_coords_list) := get_coords_for_way wid prev_last_node in
  let* prev_last_node := lift (last_item w_on_list) in
  ret (on_list ++ w_on_list, coords_list ++ w_coords_list, prev_last_node).

(** The first part of [get_coords_for_relation], up to the end of its
    loop: the lists [on_list] and [coords_list] of the whole relation. *)
Definition master_path (rid : Z) : M (list Z * list (list num)) :=
  let* relation_details := outside (CallRelationGet rid) (RelationGet env rid) in
  let* wl := lift (get_way_list relation_details) in
  let* (on_list, coords_list, _) := mfold relation_step wl ([], [], -1) in
  ret (on_list, coords_list).

(** The last part of [get_coords_for_relation]: the two [index] calls,
    the assertion and the slice. *)
Definition trim (on_list : list Z) (coords_list : list (list num))
    (start_node end_node : Z) : result (list (list num)) :=
  rbind (index on_list start_node) (fun start_index =>
  rbind (index on_list end_node) (fun end_index =>
  if bool_decide (start_index ≤ end_index)%nat then
    Ok (slice coords_list start_index (end_index + 1))
  else
    Err (AssertionError "Start index %d is before end %d"
           [Z.of_nat start_index; Z.of_nat end_index]))).

(** [get_coords_for_relation] *)
Definition get_coords_for_relation (rid start_node end_node : Z)
  : M (list (list num)) :=
  let* (on_list, coords_list) := master_path rid in
  lift (trim on_list coords_list start_node end_node).

(** [get_route_from_relation] *)
Definition get_route_from_relation (t : Leg) : M (list (list num)) :=
  match relation t with
  | None => raise (KeyError (KStr "relation"))
  | Some rid =>
      match start_loc t with
      | None => raise TypeError
      | Some sl =>
          match osm_id sl with
          | None => raise (KeyError (KStr "osm_id"))
          | Some start_node =>
              match end_loc t with
              | None => raise TypeError
              | Some el =>
                  match osm_id el with
                  | None => raise (KeyError (KStr "osm_id"))
                  | Some end_node =>
                      get_coords_for_relation rid start_node end_node
                  end
              end
          end
      end
  end.

(** The [if]/[elif] chain of [validate_and_fill_leg]: the leg and the
    value of [route_coords], which stays unbound when no branch is taken. *)
Definition route_of_leg (t : Leg) (start_coords end_coords : option (list num))
  : M (Leg * option (list (list num))) :=
  if bool_decide (is_Some (route_waypoints t))
     || bool_decide (is_Some (waypoint_coords t)) then
    let* (t, route_coords) := get_route_from_osrm t start_coords end_coords in
    ret (t, Some route_coords)
  else if bool_decide (is_Some (polyline t)) then
    let* route_coords := get_route_from_polyline t in
    ret (t, Some route_coords)
  else if bool_decide (is_Some (relation t)) then
    let* route_coords := get_route_from_relation t in
    ret (t, Some route_coords)
  else ret (t, None).

(** [validate_and_fill_leg]: the leg after its mutations. *)
Definition validate_and_fill_leg (t : Leg) : M Leg :=
  let* (sl, start_coords) := _fill_coords_from_id (start_loc t) in
  let t := set_start_loc t sl in
  let* (el, end_coords) := _fill_coords_from_id (end_loc t) in
  let t := set_end_loc t el in
  let* (t, route_coords) := route_of_leg t start_coords end_coords in
  match route_coords with
  | Some route_coords =>
      ret (set_route_coords t (map coords_swap route_coords))
  | None => raise (UnboundLocalError "route_coords")
  end.

End Autofill.

Notation "'let*' x := m 'in' k" := (bind m (fun x => k))
  (at level 10, x pattern, m at level 100, k at level 200).

(** ** The other stages of the module *)

(** The stages copy the top level of the specification and change the
    tests, trips and settings inside it in place; each stage is given
    here by the specification it returns. *)

Section Stages.

Context {num settings : Type}.

(** A sensing configuration: a dictionary whose key [id] may be missing,
    and the rest of it. *)
Record Config : Type := {
  config_id : option string;
  config_body : settings;
}.

(** A calibration test: its keys [start_loc], [end_loc] (a location or
    [None]) and [config]. *)
Record CalibrationTest : Type := {
  test_start_loc : option (@Loc num);
  test_end_loc : option (@Loc num);
  config : Config;
}.

(** An evaluation trip: a dictionary with the key [legs], or else a leg
    of its own. *)
Inductive Trip : Type :=
| Multimodal (legs : list (@Leg num))
| Unimodal (t : @Leg num).

(** A sensing setting: its key [compare], and the keys [name] and
    [sensing_configs] that the module writes. *)
Record SensingSetting : Type := {
  compare : list string;
  name : option string;
  setting_configs : option (list Config);
}.

(** The keys of the specification that the stages below read. *)
Record Spec : Type := {
  calibration_tests : list CalibrationTest;
  evaluation_trips : list Trip;
  sensing_settings : list SensingSetting;
}.

Variable env : @Env num.

(** The module-level dictionary [sensing_configs], loaded from a file
    that is not part of the module. *)
Variable sensing_configs : gmap string Config.

(** [sensing_configs[k]] *)
Definition sensing_config (k : string) : result Config :=
  match sensing_configs !! k with
  | Some c => Ok c
  | None => Err (KeyError (KStr k))
  end.

(** The body of the loop of [validate_and_fill_calibration_tests]. *)
Definition calibration_test_step (t : CalibrationTest) : M CalibrationTest :=
  let* (sl, _) := _fill_coords_from_id env (test_start_loc t) in
  let* (el, _) := _fill_coords_from_id env (test_end_loc t) in
  match config_id (config t) with
  | None => raise (KeyError (KStr "id"))
  | Some i =>
      let* c := lift (sensing_config i) in
      ret {| test_start_loc := sl; test_end_loc := el; config := c |}
  end.

(** [validate_and_fill_calibration_tests] *)
Definition validate_and_fill_calibration_tests (curr_spec : Spec) : M Spec :=
  let* calibration_tests :=
    mmap calibration_test_step (calibration_tests curr_spec) in
  ret {| calibration_tests := calibration_tests;
         evaluation_trips := evaluation_trips curr_spec;
         sensing_settings := sensing_settings curr_spec |}.

(** The body of the loop of [validate_and_fill_eval_trips]. *)
Definition eval_trip_step (t : Trip) : M Trip :=
  match t with
  | Multimodal legs =>
      let* legs := mmap (validate_and_fill_leg env) legs in
      ret (Multimodal legs)
  | Unimodal t =>
      let* t := validate_and_fill_leg env t in
      ret (Unimodal t)
  end.

(** [validate_and_fill_eval_trips] *)
Definition validate_and_fill_eval_trips (curr_spec : Spec) : M Spec :=
  let* eval_trips := mmap eval_trip_step (evaluation_trips curr_spec) in
  ret {| calibration_tests := calibration_tests curr_spec;
         evaluation_trips := eval_trips;
         sensing_settings := sensing_settings curr_spec |}.

(** The list comprehension [[sensing_configs[cr] for cr in compare_list]]. *)
Fixpoint sensing_config_list (compare_list : list string)
  : result (list Config) :=
  match compare_list with
  | [] => Ok []
  | cr :: l =>
      rbind (sensing_config cr) (fun c =>
      rbind (sensing_config_list l) (fun cs => Ok (c :: cs)))
  end.

(** The body of the loop of [validate_and_fill_sensing_settings]. *)
Definition sensing_setting_step (ss : SensingSetting) : result SensingSetting :=
  let compare_list := compare ss in
  let name := String.concat " v/s " compare_list in
  rbind (sensing_config_list compare_list) (fun cs =>
  Ok {| compare := compare_list; name := Some name;
        setting_configs := Some cs |}).

(** The loop of [validate_and_fill_sensing_settings]. *)
Fixpoint sensing_settings_loop (l : list SensingSetting)
  : result (list SensingSetting) :=
  match l with
  | [] => Ok []
  | ss :: l =>
      rbind (sensing_setting_step ss) (fun ss' =>
      rbind (sensing_settings_loop l) (fun l' => Ok (ss' :: l')))
  end.

(** [validate_and_fill_sensing_settings] *)
Definition validate_and_fill_sensing_settings (curr_spec : Spec)
  : result Spec :=
  rbind (sensing_settings_loop (sensing_settings curr_spec)) (fun l =>
  Ok {| calibration_tests := calibration_tests curr_spec;
        evaluation_trips := evaluation_trips curr_spec;
        sensing_settings := l |}).

End Stages.

(** ** Example data *)

Definition example_node (i la lo : Z) : @entry Z :=
  ENode {| node_id := i; node_lat := la; node_lon := lo |}.

(** Way 1: nodes 10, 11, 12 at (1,1), (1,2), (1,3). *)
Definition example_nodes_1 : list (@entry Z) :=
  [example_node 10 1 1; example_node 11 1 2; example_node 12 1 3].

Definition example_way_1 : list (@entry Z) :=
  example_nodes_1 ++ [EWay {| way_id := 1; nd := [10; 11; 12] |}].

(** Way 2: nodes 12, 13, 14 at (1,3), (1,4), (1,5). *)
Definition example_nodes_2 : list (@entry Z) :=
  [example_node 12 1 3; example_node 13 1 4; example_node 14 1 5].

Definition example_way_2 : list (@entry Z) :=
  example_nodes_2 ++ [EWay {| way_id := 2; nd := [12; 13; 14] |}].

(** Way 3: the answer to the request for way 3 holds a way entry with
    the id 99. *)
Definition example_way_3 : list (@entry Z) :=
  example_nodes_1 ++ [EWay {| way_id := 99; nd := [10; 11; 12] |}].

(** Way 4: the nodes of way 2, stored from 14 back to 12. *)
Definition example_way_4 : list (@entry Z) :=
  example_nodes_2 ++ [EWay {| way_id := 4; nd := [14; 13; 12] |}].

Definition example_member (t : string) (r : Z) (ro : string) : member_data :=
  {| type := t; ref := r; role := ro |}.

(** Relation 7: way 1 then way 2. *)
Definition example_relation : relation_data :=
  {| member := [example_member "way" 1 ""; example_member "way" 2 ""] |}.

(** Relation 8: a stop node, way 1, a platform way, then way 4. *)
Definition example_relation_reversed : relation_data :=
  {| member := [example_member "node" 11 "stop"; example_member "way" 1 "";
                example_member "way" 5 "platform";
                example_member "way" 4 ""] |}.

(** Relation 9: a parent relation, with the child relation 7. *)
Definition example_relation_parent : relation_data :=
  {| member := [example_member "way" 1 ""; example_member "relation" 7 ""] |}.

(** Node [i], from 10 to 14, lies at latitude 1 and longitude [i - 9];
    the router answers with the points it is given, the decoder with
    two fixed points. *)
Definition example_env : @Env Z :=
  {| NodeGet := fun i =>
       if bool_decide (10 ≤ i ≤ 14)
       then Ok {| node_id := i; node_lat := 1; node_lon := i - 9 |}
       else Err (ExternalError "no such node");
     WayFull := fun wid =>
       if bool_decide (wid = 1) then Ok example_way_1
       else if bool_decide (wid = 2) then Ok example_way_2
       else if bool_decide (wid = 3) then Ok example_way_3
       else if bool_decide (wid = 4) then Ok example_way_4
       else Err (ExternalError "no such way");
     RelationGet := fun rid =>
       if bool_decide (rid = 7) then Ok example_relation
       else if bool_decide (rid = 8) then Ok example_relation_reversed
       else if bool_decide (rid = 9) then Ok example_relation_parent
       else Err (ExternalError "no such relation");
     get_route_points := fun _ coords _ => Ok (omap id coords);
     decode := fun _ => Ok [[1; 2]; [3; 4]] |}.

Definition example_loc (i : Z) (c : option (list Z)) : @Loc Z :=
  {| osm_id := Some i; coordinates := c |}.

(** A leg from node 11 to node 13 along relation 7. *)
Definition example_leg : @Leg Z :=
  {| mode := Some "BUS";
     start_loc := Some (example_loc 11 None);
     end_loc := Some (example_loc 13 None);
     route_waypoints := None; waypoint_coords := None; polyline := None;
     relation := Some 7; route_coords := None |}.

(** The same leg with coordinates written by hand in its locations. *)
Definition example_leg_by_hand : @Leg Z :=
  {| mode := Some "BUS";
     start_loc := Some (example_loc 11 (Some [0; 0]));
     end_loc := Some (example_loc 13 (Some [0; 0]));
     route_waypoints := None; waypoint_coords := None; polyline := None;
     relation := Some 7; route_coords := Some [[0; 0]] |}.

(** Legs from node 11 to node 13 with the other route sources. *)
Definition example_leg_waypoints : @Leg Z :=
  {| mode := Some "CAR";
     start_loc := Some (example_loc 11 None);
     end_loc := Some (example_loc 13 None);
     route_waypoints := Some [12]; waypoint_coords := None;
     polyline := Some "abc"; relation := Some 7; route_coords := None |}.

Definition example_leg_coords : @Leg Z :=
  {| mode := Some "CAR";
     start_loc := Some (example_loc 11 None);
     end_loc := Some (example_loc 13 None);
     route_waypoints := None; waypoint_coords := Some [[3; 1]];
     polyline := Some "abc"; relation := Some 7; route_coords := None |}.

Definition example_leg_polyline : @Leg Z :=
  {| mode := Some "TRAIN";
     start_loc := Some (example_loc 11 None);
     end_loc := Some (example_loc 13 None);
     route_waypoints := None; waypoint_coords := None;
     polyline := Some "abc"; relation := Some 7; route_coords := None |}.

Definition example_leg_no_route : @Leg Z :=
  {| mode := Some "CAR";
     start_loc := Some (example_loc 11 None);
     end_loc := Some (example_loc 13 None);
     route_waypoints := None; waypoint_coords := None;
     polyline := None; relation := None; route_coords := None |}.

(** The two locations of the example legs once resolved, and a leg with
    these locations. *)
Definition example_start : option (@Loc Z) := Some (example_loc 11 (Some [2; 1])).

Definition example_end : option (@Loc Z) := Some (example_loc 13 (Some [4; 1])).

Definition example_located (t : @Leg Z) : @Leg Z :=
  set_end_loc (set_start_loc t example_start) example_end.

(** More ways and relations, beside those of [example_env]: way 5 is
    answered with node entries only, way 6 with its way entry before
    its node entries, way 7 with an empty node list; relation 20 has a
    stop node and a platform way only. *)
Definition example_way_5 : list (@entry Z) := example_nodes_1.

Definition example_way_6 : list (@entry Z) :=
  EWay {| way_id := 6; nd := [10; 11; 12] |} :: example_nodes_1.

Definition example_way_7 : list (@entry Z) :=
  example_nodes_1 ++ [EWay {| way_id := 7; nd := [] |}].

Definition example_relation_platform : relation_data :=
  {| member := [example_member "node" 11 "stop";
                example_member "way" 5 "platform"] |}.

Definition example_env_more : @Env Z :=
  {| NodeGet := NodeGet example_env;
     WayFull := fun wid =>
       if bool_decide (wid = 5) then Ok example_way_5
       else if bool_decide (wid = 6) then Ok example_way_6
       else if bool_decide (wid = 7) then Ok example_way_7
       else WayFull example_env wid;
     RelationGet := fun rid =>
       if bool_decide (rid = 20) then Ok example_relation_platform
       else RelationGet example_env rid;
     get_route_points := get_route_points example_env;
     decode := decode example_env |}.

(** Legs with node-id waypoints and the mode TRAIN, and legs without a
    start location. *)
Definition example_leg_train : @Leg Z :=
  {| mode := Some "TRAIN";
     start_loc := Some (example_loc 11 None);
     end_loc := Some (example_loc 13 None);
     route_waypoints := Some [12; 14]; waypoint_coords := None;
     polyline := None; relation := None; route_coords := None |}.

Definition example_leg_no_start : @Leg Z :=
  {| mode := Some "CAR";
     start_loc := None;
     end_loc := Some (example_loc 13 None);
     route_waypoints := None; waypoint_coords := None;
     polyline := None; relation := Some 7; route_coords := None |}.

Definition example_leg_no_start_coords : @Leg Z :=
  {| mode := Some "CAR";
     start_loc := None;
     end_loc := Some (example_loc 13 None);
     route_waypoints := None; waypoint_coords := Some [[3; 1]];
     polyline := None; relation := Some 7; route_coords := None |}.

(** A table of two sensing configurations, and a specification with one
    calibration test, two trips and one sensing setting. *)
Definition example_config (k : string) (b : Z) : @Config Z :=
  {| config_id := Some k; config_body := b |}.

Definition example_configs : gmap string (@Config Z) :=
  <["fixed" := example_config "fixed" 1]>
    (<["power" := example_config "power" 2]> ∅).

Definition example_spec : @Spec Z Z :=
  {| calibration_tests :=
       [ {| test_start_loc := Some (example_loc 11 None);
            test_end_loc := None;
            config := {| config_id := Some "power"; config_body := 0 |} |} ];
     evaluation_trips :=
       [Multimodal [example_leg; example_leg_polyline];
        Unimodal example_leg_waypoints];
     sensing_settings :=
       [ {| compare := ["fixed"; "power"]; name := None;
            setting_configs := None |} ] |}.

(** ** Notions of the specification *)

(** Position [i] is the first occurrence of [x] in [l]. *)
Definition first_occurrence (l : list Z) (x : Z) (i : nat) : Prop :=
  l !! i = Some x ∧ ∀ j, (j < i)%nat → l !! j ≠ Some x.

(** A member that is kept as a segment of the route. *)
Definition retained (m : member_data) : Prop :=
  type m = "way" ∧ role m ≠ "platform".

#[global] Instance retained_dec (m : member_data) : Decision (retained m).
Proof. unfold retained. apply _. Defined.

(** An entry of [WayFull] that is a way entry. *)
Definition is_way {num : Type} (e : @entry num) : Prop :=
  match e with EWay _ => True | _ => False end.

(** The dictionaries [lat] and [lon] of [get_coords_for_way] after the
    node entries among [es], starting from [m]. *)
Definition node_lats {num : Type} (es : list (@entry num)) (m : gmap Z num)
  : gmap Z num :=
  foldl (fun m e => match e with
                    | ENode d => <[node_id d := node_lat d]> m
                    | _ => m
                    end) m es.

Definition node_lons {num : Type} (es : list (@entry num)) (m : gmap Z num)
  : gmap Z num :=
  foldl (fun m e => match e with
                    | ENode d => <[node_id d := node_lon d]> m
                    | _ => m
                    end) m es.

(** The coordinate [[lat, lon]] of node [n] in two dictionaries. *)
Definition coord_at {num : Type} (lat lon : gmap Z num) (n : Z)
  : option (list num) :=
  match lat !! n, lon !! n with
  | Some la, Some lo => Some [la; lo]
  | _, _ => None
  end.

(** The coordinate that the node entries [es] give to node [n]. *)
Definition node_coord {num : Type} (es : list (@entry num)) (n : Z)
  : option (list num) :=
  coord_at (node_lats es ∅) (node_lons es ∅) n.

(** Re-orientation, in the words of the specification: the fetched order
    is reversed when [prev_last_node] is set and is the last fetched
    node, and kept otherwise. *)
Definition orient (prev_last_node : Z) (fetched : list Z) : list Z :=
  if decide (prev_last_node ≠ -1 ∧ last fetched = Some prev_last_node)
  then reverse fetched else fetched.

(** The answer of [WayFull] for way [wid] is a segment: entries [nodes]
    that hold no way entry, then one way entry with the id [wid] and the
    node list [fetched], which is not empty and whose nodes all have a
    coordinate in [nodes], then entries that hold no way entry. *)
Record segment {num : Type} (env : @Env num) (wid : Z)
    (nodes : list (@entry num)) (fetched : list Z) : Prop := {
  seg_details :
    ∃ post, WayFull env wid =
              Ok (nodes ++ EWay {| way_id := wid; nd := fetched |} :: post)
            ∧ Forall (fun e => ¬ is_way e) post;
  seg_nodes : Forall (fun e => ¬ is_way e) nodes;
  seg_nonempty : fetched ≠ [];
  seg_coords : ∀ n, n ∈ fetched → is_Some (node_coord nodes n);
}.

(** The three strategies of the dispatcher, and the collaborators each
    of them calls. *)
Inductive strategy : Type :=
| WaypointRouter
| PolylineDecoder
| RelationStitcher.

Definition call_of_strategy {num : Type} (s : strategy) (c : @call num)
  : Prop :=
  match s, c with
  | WaypointRouter, (CallNodeGet _ | CallRoutePoints _ _ _) => True
  | PolylineDecoder, CallDecode _ => True
  | RelationStitcher, (CallRelationGet _ | CallWayFull _) => True
  | _, _ => False
  end.

(** A computation that runs after the calls [tr] were made. *)
Definition after_calls {num A : Type} (tr : list (@call num)) (m : @M num A)
  : @M num A :=
  (m.1, tr ++ m.2).

(** The last line of [validate_and_fill_leg] after a strategy [m]: the
    route is swapped pair by pair and stored in the leg. *)
Definition attach_route {num : Type} (m : @M num (Leg * list (list num)))
  : @M num Leg :=
  let* (t, route_coords) := m in
  ret (set_route_coords t (map coords_swap route_coords)).

(** The modes the router accepts. *)
Definition supported_modes : list string :=
  ["CAR"; "WALKING"; "BICYCLING"; "BUS"].

(** Node [n] belongs to one of the ways [wl], a segment, whose node
    entries give it the coordinate [c]. *)
Definition on_way {num : Type} (env : @Env num) (wl : list Z) (n : Z)
    (c : list num) : Prop :=
  ∃ w nodes fetched,
    w ∈ wl ∧ segment env w nodes fetched ∧ n ∈ fetched
    ∧ node_coord nodes n = Some c.

(** Location [loc'] is location [loc] after its lookup: both [None], or
    the same [osm_id] and the pair [[lon, lat]] of that node. *)
Definition resolved {num : Type} (env : @Env num) (loc loc' : option (@Loc num))
  : Prop :=
  match loc, loc' with
  | None, None => True
  | Some l, Some l' =>
      ∃ i d, osm_id l = Some i ∧ osm_id l' = Some i ∧ NodeGet env i = Ok d
             ∧ coordinates l' = Some [node_lon d; node_lat d]
  | _, _ => False
  end.

(** A call to [NodeGet]. *)
Definition is_node_get {num : Type} (c : @call num) : Prop :=
  match c with CallNodeGet _ => True | _ => False end.

(** The legs of a trip. *)
Definition trip_legs {num : Type} (t : @Trip num) : list (@Leg num) :=
  match t with
  | Multimodal legs => legs
  | Unimodal t => [t]
  end.

(** The invariant of the loop of [get_coords_for_way]: [coords_list]
    is at least as long as [ordered_node_array]. *)
Definition coords_cover {num : Type} (st : @way_state num) : Prop :=
  ∀ ona, ordered_node_array st = Some ona →
         (length ona ≤ length (coords_list st))%nat.

(** Reduction of the fields of a leg. *)
Ltac leg_fields :=
  cbn [set_route_coords set_waypoint_coords set_start_loc set_end_loc
       mode start_loc end_loc route_waypoints waypoint_coords polyline
       relation route_coords].

(** ** The result monad and the loops *)

Section Properties.

Context {num : Type}.
Variable env : @Env num.

Lemma rfold_app {S X : Type} (body : S → X → result S) (l1 l2 : list X) (s : S) :
  rfold body (l1 ++ l2) s = rbind (rfold body l1 s) (rfold body l2).
Proof.
  revert s. induction l1 as [|x l1 IH]; intros s; simpl; [done|].
  destruct (body s x) as [s'|e]; simpl; [apply IH|done].
Qed.

Lemma bind_Ok {A B : Type} (a : A) (tr : list (@call num)) (f : A → M B) :
  bind (Ok a, tr) f = (fst (f a), tr ++ snd (f a)).
Proof. unfold bind. by destruct (f a). Qed.

Lemma bind_assoc {A B C : Type} (m : @M num A) (f : A → M B) (g : B → M C) :
  bind (bind m f) g = bind m (fun a => bind (f a) g).
Proof.
  destruct m as [[a|e] tr]; simpl; [|done].
  destruct (f a) as [[b|e] tr1]; simpl; [|done].
  destruct (g b) as [r tr2]. by rewrite app_assoc.
Qed.

Lemma bind_ext {A B : Type} (m : @M num A) (f g : A → M B) :
  (∀ a, f a = g a) → bind m f = bind m g.
Proof. intros H. destruct m as [[a|e] tr]; simpl; [|done]. by rewrite H. Qed.

Lemma bind_ret {A B : Type} (a : A) (f : A → @M num B) :
  bind (ret a) f = f a.
Proof. unfold bind, ret. by destruct (f a). Qed.

Lemma bool_decide_None (A : Type) : bool_decide (is_Some (@None A)) = false.
Proof. apply bool_decide_eq_false_2. by intros [? ?]. Qed.

Lemma bool_decide_Some (A : Type) (a : A) : bool_decide (is_Some (Some a)) = true.
Proof. by apply bool_decide_eq_true_2. Qed.

Lemma mfold_cons {S X : Type} (body : S → X → @M num S) (x : X) (l : list X)
    (s : S) :
  mfold body (x :: l) s = bind (body s x) (mfold body l).
Proof. done. Qed.

Lemma mfold_app {S X : Type} (body : S → X → @M num S) (l1 l2 : list X) (s : S) :
  mfold body (l1 ++ l2) s = bind (mfold body l1 s) (mfold body l2).
Proof.
  revert s. induction l1 as [|x l1 IH]; intros s; simpl.
  - unfold bind, ret. by destruct (mfold body l2 s).
  - rewrite bind_assoc. destruct (body s x) as [[s'|e] tr]; simpl; [|done].
    by rewrite IH.
Qed.

(** ** [index] finds the first occurrence *)

Lemma index_first (l : list Z) (x : Z) (i : nat) :
  index l x = Ok i ↔ first_occurrence l x i.
Proof.
  unfold first_occurrence. revert i.
  induction l as [|y l IH]; intros i; simpl.
  - split; [done|]. by intros [? _].
  - destruct (Z.eqb_spec y x) as [->|Hne].
    + split.
      * intros [= <-]. split; [done|]. lia.
      * intros [Hi Hlt]. destruct i as [|i]; [done|].
        exfalso. apply (Hlt 0%nat); [lia|done].
    + destruct (index l x) as [k|e] eqn:Hk; simpl.
      * split.
        -- intros [= <-]. destruct (proj1 (IH k) eq_refl) as [Hk1 Hk2].
           split; [done|]. intros [|j] Hj; simpl; [congruence|].
           apply Hk2. lia.
        -- intros [Hi Hlt]. destruct i as [|i]; simpl in *; [congruence|].
           f_equal. assert (Ok k = Ok i) as [= ->]; [|done].
           apply IH. split; [done|]. intros j Hj. apply (Hlt (S j)). lia.
      * split; [done|]. intros [Hi Hlt].
        destruct i as [|i]; simpl in *; [congruence|].
        assert (@Err nat e = Ok i); [|done].
        apply IH. split; [done|]. intros j Hj. apply (Hlt (S j)). lia.
Qed.

Lemma index_absent (l : list Z) (x : Z) :
  x ∉ l → index l x = Err ValueError.
Proof.
  induction l as [|y l IH]; simpl; [done|].
  intros Hx. apply not_elem_of_cons in Hx as [Hne Hx].
  destruct (Z.eqb_spec y x); [congruence|]. by rewrite IH.
Qed.

Lemma index_present (l : list Z) (x : Z) :
  x ∈ l → ∃ i, index l x = Ok i.
Proof.
  induction l as [|y l IH]; simpl; [by intros ?%elem_of_nil|].
  intros Hx. destruct (Z.eqb_spec y x); [by exists 0%nat|].
  apply elem_of_cons in Hx as [->|Hx]; [done|].
  destruct (IH Hx) as [i ->]. by exists (S i).
Qed.

Lemma bind_inv_Ok {A B : Type} (m : @M num A) (f : A → M B) (b : B) tr :
  bind m f = (Ok b, tr) →
  ∃ a tr1 tr2, m = (Ok a, tr1) ∧ f a = (Ok b, tr2) ∧ tr = tr1 ++ tr2.
Proof.
  destruct m as [[a|e] tr1]; simpl; [|done].
  destruct (f a) as [r tr2] eqn:Hf. intros [= -> <-]. by exists a, tr1, tr2.
Qed.

Lemma rbind_inv_Ok {A B : Type} (r : result A) (f : A → result B) (b : B) :
  rbind r f = Ok b → ∃ a, r = Ok a ∧ f a = Ok b.
Proof. destruct r as [a|e]; simpl; [|done]. by exists a. Qed.

(** ** Member filtering *)

Lemma get_way_list_acc (l : list member_data) (acc : list Z) :
  (∀ m, m ∈ l → type m ≠ "relation") →
  rfold get_way_list_step l acc = Ok (acc ++ (ref <$> filter retained l)).
Proof.
  revert acc. induction l as [|m l IH]; intros acc Hl; simpl.
  - by rewrite app_nil_r.
  - assert (type m ≠ "relation") as Hm by (apply Hl; left).
    unfold get_way_list_step at 1. rewrite bool_decide_eq_true_2 by done.
    assert (∀ m', m' ∈ l → type m' ≠ "relation") as Hl'
      by (intros m' Hm'; apply Hl; by right).
    rewrite filter_cons. destruct (decide (retained m)) as [[Hw Hr]|Hn].
    + rewrite !bool_decide_eq_true_2 by done. simpl.
      rewrite IH by done. by rewrite <- app_assoc.
    + destruct (bool_decide (type m = "way") && bool_decide (role m ≠ "platform"))
        eqn:Hb; simpl; [|by apply IH].
      apply andb_true_iff in Hb as [Hw%bool_decide_eq_true Hr%bool_decide_eq_true].
      by destruct Hn.
Qed.

Lemma get_way_list_relation (l : list member_data) (acc : list Z) (m : member_data) :
  m ∈ l → type m = "relation" →
  ∃ m', m' ∈ l ∧ type m' = "relation" ∧
    rfold get_way_list_step l acc =
      Err (AssertionError
             "This is a parent relation for child %d, expecting only child relations"
             [ref m']).
Proof.
  revert acc. induction l as [|m0 l IH]; intros acc Hin Hm.
  - by apply elem_of_nil in Hin.
  - simpl. unfold get_way_list_step at 1.
    destruct (decide (type m0 = "relation")) as [H0|H0].
    + exists m0. split; [left|]. split; [done|].
      by rewrite bool_decide_eq_false_2 by (by intros ?).
    + rewrite bool_decide_eq_true_2 by done.
      apply elem_of_cons in Hin as [->|Hin]; [done|].
      destruct (bool_decide (type m0 = "way") && bool_decide (role m0 ≠ "platform"));
        simpl;
        [destruct (IH (acc ++ [ref m0]) Hin Hm) as (m' & ? & ? & ->)
        |destruct (IH acc Hin Hm) as (m' & ? & ? & ->)];
        exists m'; (split; [by right|done]).
Qed.

(** C9. Member filtering: if some member of the relation has type
    "relation", [get_way_list] fails on the assertion (with the [ref] of
    such a member in its message); if none has, it returns exactly the
    [ref]s of the members of type "way" whose role is not "platform", in
    the order of the member list. *)
Theorem get_way_list_filter (relation_details : relation_data) :
  (∀ m, m ∈ member relation_details → type m = "relation" →
     ∃ m', m' ∈ member relation_details ∧ type m' = "relation" ∧
       get_way_list relation_details =
         Err (AssertionError
                "This is a parent relation for child %d, expecting only child relations"
                [ref m']))
  ∧ ((∀ m, m ∈ member relation_details → type m ≠ "relation") →
     get_way_list relation_details =
       Ok (ref <$> filter retained (member relation_details))).
Proof.
  split.
  - intros m Hin Hm. by apply (get_way_list_relation _ [] m).
  - intros Hl. unfold get_way_list. by rewrite get_way_list_acc.
Qed.

(** ** The router *)

Lemma osrm_mode_supported (mode : string) :
  osrm_mode mode = true ↔ mode ∈ supported_modes.
Proof.
  unfold osrm_mode, supported_modes.
  rewrite !orb_true_iff, !bool_decide_eq_true, !elem_of_cons, elem_of_nil.
  tauto.
Qed.

(** C8. The modes of [get_route_coords]: for a mode outside CAR,
    WALKING, BICYCLING and BUS it raises [NotImplementedError] and calls
    no collaborator; for a mode among them it makes exactly one call, to
    [get_route_points], with the mode, the coordinates and the parameters
    overview full, geometries polyline, steps false, and returns or
    raises what that call does. *)
Theorem get_route_coords_by_mode (mode : string)
    (waypoint_coords : list (option (list num))) :
  (mode ∉ supported_modes →
     get_route_coords env mode waypoint_coords =
       (Err (NotImplementedError "OSRM does not support train modes at this time"),
        []))
  ∧ (mode ∈ supported_modes →
     let params :=
       [("overview", "full"); ("geometries", "polyline"); ("steps", "false")] in
     get_route_coords env mode waypoint_coords =
       (get_route_points env mode waypoint_coords params,
        [CallRoutePoints mode waypoint_coords params])).
Proof.
  unfold get_route_coords. split; intros Hm.
  - destruct (osrm_mode mode) eqn:Ho; [|done].
    by apply osrm_mode_supported in Ho.
  - apply osrm_mode_supported in Hm as ->. unfold overview_geometry_params.
    simpl. by destruct (get_route_points env _ _ _).
Qed.

(** ** The loop over the entries of a way *)

Lemma way_state_eta (st : @way_state num) :
  {| lat := lat st; lon := lon st; coords_list := coords_list st;
     ordered_node_array := ordered_node_array st |} = st.
Proof. by destruct st. Qed.

Lemma rfold_nodes (wid p : Z) (es : list entry) (st : @way_state num) :
  Forall (fun e => ¬ is_way e) es →
  rfold (way_entry_step wid p) es st =
    Ok {| lat := node_lats es (lat st); lon := node_lons es (lon st);
          coords_list := coords_list st;
          ordered_node_array := ordered_node_array st |}.
Proof.
  intros Hes. revert st. induction Hes as [|e es He _ IH]; intros st; simpl.
  - by rewrite way_state_eta.
  - destruct e as [d|d|ty]; simpl; [|by destruct He|]; by rewrite IH.
Qed.

Lemma append_coords_ok (la lo : gmap Z num) (ona : list Z)
    (cl cs : list (list num)) :
  Forall2 (fun n c => coord_at la lo n = Some c) ona cs →
  rfold (append_coord la lo) ona cl = Ok (cl ++ cs).
Proof.
  intros H. revert cl. induction H as [|n c ona cs Hc _ IH]; intros cl; simpl.
  - by rewrite app_nil_r.
  - unfold coord_at in Hc. unfold append_coord at 1.
    destruct (la !! n) as [a|]; [|done]. destruct (lo !! n) as [b|]; [|done].
    injection Hc as <-. simpl. rewrite IH. by rewrite <- app_assoc.
Qed.

Lemma append_coords_inv (la lo : gmap Z num) (ona : list Z)
    (cl cl' : list (list num)) :
  rfold (append_coord la lo) ona cl = Ok cl' →
  ∃ cs, cl' = cl ++ cs ∧ Forall2 (fun n c => coord_at la lo n = Some c) ona cs.
Proof.
  revert cl. induction ona as [|n ona IH]; intros cl; simpl.
  - intros [= <-]. exists []. by rewrite app_nil_r.
  - intros (cl1 & H1 & H2)%rbind_inv_Ok. unfold append_coord in H1.
    destruct (la !! n) as [a|] eqn:Ha; [|done].
    destruct (lo !! n) as [b|] eqn:Hb; [|done]. injection H1 as <-.
    destruct (IH _ H2) as (cs & -> & Hcs). exists ([a; b] :: cs).
    split; [by rewrite <- app_assoc|].
    constructor; [|done]. unfold coord_at. by rewrite Ha, Hb.
Qed.

Lemma all_coords (la lo : gmap Z num) (ona : list Z) :
  (∀ n, n ∈ ona → is_Some (coord_at la lo n)) →
  ∃ cs, Forall2 (fun n c => coord_at la lo n = Some c) ona cs.
Proof.
  induction ona as [|n ona IH]; intros H.
  - by exists [].
  - destruct (H n) as [c Hc]; [left|].
    destruct IH as [cs Hcs]; [intros n' ?; apply H; by right|].
    exists (c :: cs). by constructor.
Qed.

Lemma reversing_orient (p : Z) (fetched : list Z) :
  fetched ≠ [] →
  ∃ b, reversing p fetched = Ok b
       ∧ (if b then reverse fetched else fetched) = orient p fetched.
Proof.
  intros Hne. unfold reversing, orient, last_item.
  destruct (last fetched) as [l|] eqn:Hl;
    [|by apply last_None in Hl].
  destruct (decide (p ≠ -1)) as [Hp|Hp].
  - rewrite bool_decide_eq_true_2 by done. simpl.
    eexists; split; [done|].
    destruct (decide (l = p)) as [->|Hlp].
    + rewrite bool_decide_eq_true_2 by done. by rewrite decide_True.
    + rewrite bool_decide_eq_false_2 by done.
      rewrite decide_False; [done|]. intros [_ [=]]. done.
  - rewrite bool_decide_eq_false_2 by done. exists false. split; [done|].
    rewrite decide_False; [done|]. by intros [? _].
Qed.

Lemma reversing_test (p : Z) (fetched : list Z) :
  fetched ≠ [] →
  reversing p fetched =
    Ok (bool_decide (p ≠ -1 ∧ last fetched = Some p)).
Proof.
  intros Hne. unfold reversing, last_item.
  destruct (last fetched) as [l|] eqn:Hl; [|by apply last_None in Hl].
  destruct (decide (p ≠ -1)) as [Hp|Hp].
  - rewrite bool_decide_eq_true_2 by done. simpl. f_equal.
    apply bool_decide_ext. split; [by intros ->|by intros [_ [= ->]]].
  - rewrite bool_decide_eq_false_2 by done. f_equal. symmetry.
    apply bool_decide_eq_false_2. by intros [? _].
Qed.

Lemma orient_elem (p : Z) (fetched : list Z) (n : Z) :
  n ∈ orient p fetched ↔ n ∈ fetched.
Proof. unfold orient. case_decide; [apply elem_of_reverse|done]. Qed.

Lemma orient_nonempty (p : Z) (fetched : list Z) :
  fetched ≠ [] → orient p fetched ≠ [].
Proof.
  unfold orient. intros H. case_decide; [|done].
  intros Hr. apply H. apply (f_equal reverse) in Hr.
  by rewrite reverse_involutive in Hr.
Qed.

(** What [get_coords_for_way] returns on a segment. *)
Lemma get_coords_for_way_segment (wid p : Z) (nodes : list entry)
    (fetched : list Z) :
  segment env wid nodes fetched →
  ∃ cs, get_coords_for_way env wid p =
          (Ok (orient p fetched, cs), [CallWayFull wid])
        ∧ Forall2 (fun n c => node_coord nodes n = Some c) (orient p fetched) cs.
Proof.
  intros [(post & Hw & Hpost) Hnodes Hne Hc].
  destruct (all_coords (node_lats nodes ∅) (node_lons nodes ∅) (orient p fetched))
    as [cs Hcs].
  { intros n Hn. apply Hc. by apply orient_elem in Hn. }
  exists cs. split; [|done].
  unfold get_coords_for_way. rewrite Hw. simpl.
  unfold lift, coords_of_way_details. rewrite rfold_app, rfold_nodes by done.
  simpl. rewrite bool_decide_eq_true_2 by done.
  destruct (reversing_orient p fetched Hne) as (b & -> & Hb).
  cbn [rbind]. rewrite Hb.
  rewrite (append_coords_ok _ _ _ _ cs) by done. cbn [rbind].
  rewrite rfold_nodes by done. done.
Qed.

(** C10. A way entry whose id is not the requested one makes the loop
    of [get_coords_for_way] fail with [NameError] on the name [wl], read
    while the message of the assertion is built, and not with an
    assertion error that reports the two ids: this holds for the loop
    body in every state, and for [get_coords_for_way] when the entries
    before that way entry hold no way entry. *)
Theorem way_id_mismatch_name_error (wid p : Z) (d : way_data) :
  way_id d ≠ wid →
  (∀ st : @way_state num,
     way_entry_step wid p st (EWay d) = Err (NameError "wl"))
  ∧ (∀ nodes post : list entry,
       Forall (fun e => ¬ is_way e) nodes →
       WayFull env wid = Ok (nodes ++ EWay d :: post) →
       get_coords_for_way env wid p =
         (Err (NameError "wl"), [CallWayFull wid])).
Proof.
  intros Hd. split.
  - intros st. simpl. by rewrite bool_decide_eq_false_2.
  - intros nodes post Hnodes Hw. unfold get_coords_for_way. rewrite Hw.
    simpl. unfold lift, coords_of_way_details.
    rewrite rfold_app, rfold_nodes by done. simpl.
    by rewrite bool_decide_eq_false_2.
Qed.

(** ** Lengths of the two lists of the loops *)

Lemma rfold_inv {S X : Type} (I : S → Prop) (body : S → X → result S)
    (l : list X) (s s' : S) :
  (∀ s x s', I s → body s x = Ok s' → I s') →
  I s → rfold body l s = Ok s' → I s'.
Proof.
  intros Hbody. revert s. induction l as [|x l IH]; intros s Hs; simpl.
  - by intros [= <-].
  - intros (s1 & H1 & H2)%rbind_inv_Ok. eauto.
Qed.

Lemma mfold_inv {S X : Type} (I : S → Prop) (body : S → X → @M num S)
    (l : list X) (s s' : S) tr :
  (∀ s x s' tr, I s → body s x = (Ok s', tr) → I s') →
  I s → mfold body l s = (Ok s', tr) → I s'.
Proof.
  intros Hbody. revert s tr. induction l as [|x l IH]; intros s tr Hs; simpl.
  - by intros [= <- _].
  - intros (s1 & tr1 & tr2 & H1 & H2 & _)%bind_inv_Ok. eauto.
Qed.

Lemma way_entry_step_cover (wid p : Z) (st : @way_state num) (e : entry)
    (st' : way_state) :
  coords_cover st → way_entry_step wid p st e = Ok st' → coords_cover st'.
Proof.
  intros Hst. destruct e as [d|d|ty]; simpl.
  - by intros [= <-].
  - case_bool_decide; [|done].
    intros (b & _ & (cl & Hcl & [= <-])%rbind_inv_Ok)%rbind_inv_Ok.
    apply append_coords_inv in Hcl as (cs & -> & Hcs).
    intros ona [= <-]. simpl. rewrite length_app.
    apply Forall2_length in Hcs. lia.
  - by intros [= <-].
Qed.

Lemma coords_of_way_details_length (wid p : Z) (es : list entry)
    (ona : list Z) (cl : list (list num)) :
  coords_of_way_details wid p es = Ok (ona, cl) →
  (length ona ≤ length cl)%nat.
Proof.
  unfold coords_of_way_details. intros (st & Hst & Hret)%rbind_inv_Ok.
  apply (rfold_inv (@coords_cover num)) in Hst;
    [|apply way_entry_step_cover|by intros ? [=]].
  destruct (ordered_node_array st) as [ona'|] eqn:Ho; [|done].
  injection Hret as <- <-. by apply Hst.
Qed.

Lemma relation_step_length (st st' : list Z * list (list num) * Z) (wid : Z) tr :
  (length st.1.1 ≤ length st.1.2)%nat →
  relation_step env st wid = (Ok st', tr) →
  (length st'.1.1 ≤ length st'.1.2)%nat.
Proof.
  destruct st as [[on cl] p]. simpl. intros Hlen. unfold relation_step.
  intros ([w_on w_cl] & tr1 & tr2 & Hw & Hk & _)%bind_inv_Ok.
  destruct (last_item w_on) as [p'|]; [|done]. injection Hk as <- _.
  unfold get_coords_for_way in Hw.
  apply bind_inv_Ok in Hw as (es & ? & ? & _ & [= Hw] & _).
  apply coords_of_way_details_length in Hw. simpl.
  rewrite !length_app. lia.
Qed.

Lemma master_path_length (rid : Z) (on_list : list Z)
    (coords_list : list (list num)) tr :
  master_path env rid = (Ok (on_list, coords_list), tr) →
  (length on_list ≤ length coords_list)%nat.
Proof.
  unfold master_path.
  intros (rd & ? & ? & _ & H & _)%bind_inv_Ok.
  apply bind_inv_Ok in H as (wl & ? & ? & _ & H & _).
  apply bind_inv_Ok in H as ([[on cl] p] & ? & ? & H & [= <- <-] & _).
  apply (mfold_inv (fun st => length st.1.1 ≤ length st.1.2)%nat) in H;
    [done| |simpl; lia].
  intros s w s' tr' Hs Hstep. by eapply relation_step_length.
Qed.

(** ** Trimming *)

Lemma slice_inclusive {A : Type} (l : list A) (s e : nat) :
  (s ≤ e)%nat → (e < length l)%nat →
  length (slice l s (e + 1)) = (e - s + 1)%nat
  ∧ ∀ i, (i ≤ e - s)%nat → slice l s (e + 1) !! i = l !! (s + i)%nat.
Proof.
  intros Hse He. unfold slice. split.
  - rewrite length_take, length_drop. lia.
  - intros i Hi. rewrite lookup_take_lt by lia. apply lookup_drop.
Qed.

Lemma get_coords_for_relation_trim (rid start_node end_node : Z)
    (on_list : list Z) (coords_list : list (list num)) tr :
  master_path env rid = (Ok (on_list, coords_list), tr) →
  get_coords_for_relation env rid start_node end_node =
    (trim on_list coords_list start_node end_node, tr).
Proof.
  intros H. unfold get_coords_for_relation. rewrite H. simpl.
  by rewrite app_nil_r.
Qed.

Lemma trim_indices (on_list : list Z) (coords_list : list (list num))
    (start_node end_node : Z) (s e : nat) :
  first_occurrence on_list start_node s →
  first_occurrence on_list end_node e →
  trim on_list coords_list start_node end_node =
    if bool_decide (s ≤ e)%nat then Ok (slice coords_list s (e + 1))
    else Err (AssertionError "Start index %d is before end %d"
                [Z.of_nat s; Z.of_nat e]).
Proof.
  intros Hs%index_first He%index_first. unfold trim. by rewrite Hs, He.
Qed.

(** C6. On an assembled master path, [get_coords_for_relation] works
    with the first occurrences of the start and of the end node in
    [on_list]: when one of the two nodes is not in [on_list] it raises
    [ValueError] and returns no list; when both are there, at first
    positions [s] and [e], it raises the assertion error if [s > e] (and
    returns the slice otherwise). *)
Theorem get_coords_for_relation_failures (rid start_node end_node : Z)
    (on_list : list Z) (coords_list : list (list num)) tr :
  master_path env rid = (Ok (on_list, coords_list), tr) →
  (start_node ∉ on_list ∨ end_node ∉ on_list →
     get_coords_for_relation env rid start_node end_node = (Err ValueError, tr))
  ∧ (start_node ∈ on_list → end_node ∈ on_list →
     ∃ s e, first_occurrence on_list start_node s
            ∧ first_occurrence on_list end_node e
            ∧ get_coords_for_relation env rid start_node end_node =
                (if bool_decide (s ≤ e)%nat
                 then Ok (slice coords_list s (e + 1))
                 else Err (AssertionError "Start index %d is before end %d"
                             [Z.of_nat s; Z.of_nat e]), tr))
  ∧ (∀ s e, first_occurrence on_list start_node s →
            first_occurrence on_list end_node e → (e < s)%nat →
            get_coords_for_relation env rid start_node end_node =
              (Err (AssertionError "Start index %d is before end %d"
                      [Z.of_nat s; Z.of_nat e]), tr)).
Proof.
  intros Hmp. rewrite (get_coords_for_relation_trim _ _ _ _ _ _ Hmp).
  split; [|split].
  - intros Habs. f_equal. unfold trim.
    destruct (decide (start_node ∈ on_list)) as [Hin|Hnin].
    + destruct Habs as [?|Hend]; [done|].
      destruct (index_present _ _ Hin) as [s ->]. simpl.
      by rewrite (index_absent _ _ Hend).
    + by rewrite (index_absent _ _ Hnin).
  - intros Hs He.
    destruct (index_present _ _ Hs) as [s Hsi].
    destruct (index_present _ _ He) as [e Hei].
    apply index_first in Hsi, Hei. exists s, e.
    split; [done|]. split; [done|]. f_equal. by apply trim_indices.
  - intros s e Hs He Hlt. f_equal.
    rewrite (trim_indices _ _ _ _ s e) by done.
    by rewrite bool_decide_eq_false_2 by lia.
Qed.

Lemma trim_range (rid start_node end_node : Z)
    (on_list : list Z) (coords_list : list (list num)) tr (s e : nat) :
  master_path env rid = (Ok (on_list, coords_list), tr) →
  first_occurrence on_list start_node s →
  first_occurrence on_list end_node e →
  (s ≤ e)%nat →
  get_coords_for_relation env rid start_node end_node =
    (Ok (slice coords_list s (e + 1)), tr)
  ∧ length (slice coords_list s (e + 1)) = (e - s + 1)%nat
  ∧ ∀ i, (i ≤ e - s)%nat →
         slice coords_list s (e + 1) !! i = coords_list !! (s + i)%nat.
Proof.
  intros Hmp Hs He Hse.
  rewrite (get_coords_for_relation_trim _ _ _ _ _ _ Hmp).
  rewrite (trim_indices _ _ _ _ s e) by done.
  rewrite bool_decide_eq_true_2 by done. split; [done|].
  apply slice_inclusive; [done|].
  apply master_path_length in Hmp. destruct He as [He _].
  apply lookup_lt_Some in He. lia.
Qed.

(** C3. The range returned: on an assembled master path in which the
    start node first occurs at position [s] and the end node at position
    [e], with [s ≤ e], [get_coords_for_relation] returns the coordinates
    of the positions [s] to [e] of the master path, both included, in
    order: [e - s + 1] coordinates. *)
Theorem get_coords_for_relation_range (rid start_node end_node : Z)
    (on_list : list Z) (coords_list : list (list num)) tr (s e : nat) :
  master_path env rid = (Ok (on_list, coords_list), tr) →
  first_occurrence on_list start_node s →
  first_occurrence on_list end_node e →
  (s ≤ e)%nat →
  ∃ route,
    get_coords_for_relation env rid start_node end_node = (Ok route, tr)
    ∧ route = slice coords_list s (e + 1)
    ∧ length route = (e - s + 1)%nat
    ∧ ∀ i, (i ≤ e - s)%nat → route !! i = coords_list !! (s + i)%nat.
Proof.
  intros Hmp Hs He Hse. exists (slice coords_list s (e + 1)).
  destruct (trim_range _ _ _ _ _ _ _ _ Hmp Hs He Hse) as (H1 & H2 & H3).
  done.
Qed.

(** ** The loop over the ways of a relation *)

Lemma relation_step_segment (on : list Z) (cl : list (list num)) (p wid : Z)
    (nodes : list entry) (fetched : list Z) :
  segment env wid nodes fetched →
  ∃ cs p',
    get_coords_for_way env wid p = (Ok (orient p fetched, cs), [CallWayFull wid])
    ∧ relation_step env (on, cl, p) wid =
        (Ok (on ++ orient p fetched, cl ++ cs, p'), [CallWayFull wid])
    ∧ Forall2 (fun n c => node_coord nodes n = Some c) (orient p fetched) cs
    ∧ last (orient p fetched) = Some p'.
Proof.
  intros Hseg.
  destruct (get_coords_for_way_segment wid p nodes fetched Hseg) as (cs & Hw & Hcs).
  destruct (last (orient p fetched)) as [p'|] eqn:Hl.
  - exists cs, p'. split; [done|]. split; [|done].
    unfold relation_step. rewrite Hw. simpl. unfold last_item. by rewrite Hl.
  - apply last_None in Hl. destruct Hseg as [_ _ Hne _].
    by apply (orient_nonempty p) in Hne.
Qed.

Lemma mfold_segments (wl : list Z) (on : list Z) (cl : list (list num)) (p : Z) :
  (∀ w, w ∈ wl → ∃ nodes fetched, segment env w nodes fetched) →
  ∃ ons cls p',
    mfold (relation_step env) wl (on, cl, p) =
      (Ok (on ++ ons, cl ++ cls, p'), CallWayFull <$> wl)
    ∧ length ons = length cls.
Proof.
  revert on cl p. induction wl as [|w wl IH]; intros on cl p Hwl.
  - exists [], [], p. simpl. by rewrite !app_nil_r.
  - destruct (Hwl w) as (nodes & fetched & Hseg); [left|].
    destruct (relation_step_segment on cl p w nodes fetched Hseg)
      as (cs & p1 & _ & Hstep & Hcs & _).
    destruct (IH (on ++ orient p fetched) (cl ++ cs) p1) as (ons & cls & p' & Hm & Hlen).
    { intros w' Hw'. apply Hwl. by right. }
    exists (orient p fetched ++ ons), (cs ++ cls), p'. split.
    + rewrite mfold_cons, Hstep, bind_Ok, Hm. simpl. by rewrite !app_assoc.
    + rewrite !length_app. apply Forall2_length in Hcs. lia.
Qed.

(** C2. Re-orientation in the loop of [get_coords_for_relation]: for
    ways [pre] followed by a way [wid], all of them segments, the loop
    over [pre] ends in some [on_list], [coords_list] and
    [prev_last_node]; the test of [get_coords_for_way] for [wid] holds
    exactly when [prev_last_node] is not -1 and the last fetched node is
    [prev_last_node]; the node order used is the fetched order reversed
    in that case and the fetched order itself otherwise (this is
    [orient]); these nodes and their coordinates are appended; and
    [prev_last_node] becomes the last node of the order used. *)
Theorem relation_loop_orientation (pre : list Z) (wid : Z)
    (nodes : list entry) (fetched : list Z) :
  (∀ w, w ∈ pre → ∃ nodes' fetched', segment env w nodes' fetched') →
  segment env wid nodes fetched →
  ∃ on_list coords_list prev_last_node w_coords_list new_last_node,
    mfold (relation_step env) pre ([], [], -1) =
      (Ok (on_list, coords_list, prev_last_node), CallWayFull <$> pre)
    ∧ reversing prev_last_node fetched =
        Ok (bool_decide (prev_last_node ≠ -1
                         ∧ last fetched = Some prev_last_node))
    ∧ (prev_last_node ≠ -1 ∧ last fetched = Some prev_last_node →
       orient prev_last_node fetched = reverse fetched)
    ∧ (¬ (prev_last_node ≠ -1 ∧ last fetched = Some prev_last_node) →
       orient prev_last_node fetched = fetched)
    ∧ get_coords_for_way env wid prev_last_node =
        (Ok (orient prev_last_node fetched, w_coords_list), [CallWayFull wid])
    ∧ Forall2 (fun n c => node_coord nodes n = Some c)
        (orient prev_last_node fetched) w_coords_list
    ∧ last (orient prev_last_node fetched) = Some new_last_node
    ∧ mfold (relation_step env) (pre ++ [wid]) ([], [], -1) =
        (Ok (on_list ++ orient prev_last_node fetched,
             coords_list ++ w_coords_list, new_last_node),
         CallWayFull <$> (pre ++ [wid])).
Proof.
  intros Hpre Hseg.
  destruct (mfold_segments pre [] [] (-1) Hpre) as (on & cl & p & Hm & _).
  simpl in Hm.
  destruct (relation_step_segment on cl p wid nodes fetched Hseg)
    as (cs & p' & Hw & Hstep & Hcs & Hlast).
  exists on, cl, p, cs, p'. split; [done|].
  split; [apply reversing_test; by destruct Hseg|].
  split; [intros H; unfold orient; by rewrite decide_True|].
  split; [intros H; unfold orient; by rewrite decide_False|].
  split; [done|]. split; [done|]. split; [done|].
  rewrite mfold_app, Hm, bind_Ok, mfold_cons, Hstep. simpl.
  by rewrite fmap_app.
Qed.

(** C4. The node at the boundary of two consecutive segments is kept
    twice. Let [w1] and [w2] be consecutive ways of a relation whose
    ways are all segments, let the loop after [w1] have the node list
    [on1] and [prev_last_node = b], and let the order used for [w2]
    begin with [b]. Then, with [k] the last position of [on1], the
    master path has the node [b] at the positions [k] and [k + 1], with
    the coordinate that [w1] gives to [b] at [k] and the one that [w2]
    gives to [b] at [k + 1] (the same coordinate twice when the two ways
    agree on it); and every range returned by
    [get_coords_for_relation] that starts at or before [k] and ends at
    or after [k + 1] holds these two coordinates next to each other. *)
Theorem boundary_node_twice (rid : Z) (relation_details : relation_data)
    (pre post : list Z) (w1 w2 : Z) (nodes1 nodes2 : list entry)
    (fetched1 fetched2 : list Z) (on1 : list Z) (cl1 : list (list num))
    (b : Z) tr1 :
  RelationGet env rid = Ok relation_details →
  get_way_list relation_details = Ok (pre ++ w1 :: w2 :: post) →
  (∀ w, w ∈ pre ++ w1 :: w2 :: post →
        ∃ nodes fetched, segment env w nodes fetched) →
  segment env w1 nodes1 fetched1 →
  segment env w2 nodes2 fetched2 →
  mfold (relation_step env) (pre ++ [w1]) ([], [], -1) = (Ok (on1, cl1, b), tr1) →
  head (orient b fetched2) = Some b →
  ∃ on_list coords_list tr c1 c2,
    master_path env rid = (Ok (on_list, coords_list), tr)
    ∧ let k := (length on1 - 1)%nat in
      on_list !! k = Some b ∧ on_list !! S k = Some b
      ∧ node_coord nodes1 b = Some c1 ∧ node_coord nodes2 b = Some c2
      ∧ coords_list !! k = Some c1 ∧ coords_list !! S k = Some c2
      ∧ (node_coord nodes1 b = node_coord nodes2 b →
         coords_list !! k = coords_list !! S k)
      ∧ ∀ start_node end_node s e,
          first_occurrence on_list start_node s →
          first_occurrence on_list end_node e →
          (s ≤ k)%nat → (S k ≤ e)%nat →
          ∃ route,
            get_coords_for_relation env rid start_node end_node = (Ok route, tr)
            ∧ route !! (k - s)%nat = Some c1
            ∧ route !! S (k - s)%nat = Some c2.
Proof.
  intros Hrel Hwl Hall Hs1 Hs2 Hm1 Hhead.
  assert (Hm1' := Hm1).
  destruct (mfold_segments pre [] [] (-1)) as (on0 & cl0 & p0 & Hm0 & Hlen0).
  { intros w Hw. apply Hall. apply elem_of_app. by left. }
  simpl in Hm0.
  destruct (relation_step_segment on0 cl0 p0 w1 nodes1 fetched1 Hs1)
    as (cs1 & b' & _ & Hstep1 & Hcs1 & Hlast1).
  rewrite mfold_app, Hm0, bind_Ok, mfold_cons, Hstep1 in Hm1'. simpl in Hm1'.
  injection Hm1' as <- <- <- _.
  destruct (relation_step_segment (on0 ++ orient p0 fetched1) (cl0 ++ cs1) b'
              w2 nodes2 fetched2 Hs2)
    as (cs2 & p2 & _ & Hstep2 & Hcs2 & Hlast2).
  destruct (mfold_segments post
              ((on0 ++ orient p0 fetched1) ++ orient b' fetched2)
              ((cl0 ++ cs1) ++ cs2) p2) as (ons & cls & p3 & Hm3 & Hlen3).
  { intros w Hw. apply Hall. apply elem_of_app. right. by do 2 right. }
  set (on1 := on0 ++ orient p0 fetched1) in *.
  set (cl1 := cl0 ++ cs1) in *.
  set (k := (length on1 - 1)%nat).
  assert (length on1 = length cl1) as Hlen1.
  { subst on1 cl1. rewrite !length_app. apply Forall2_length in Hcs1. lia. }
  assert (on1 !! k = Some b') as Hk.
  { subst k. rewrite Nat.sub_1_r, <- last_lookup. subst on1.
    rewrite last_app, Hlast1. done. }
  assert (k < length on1)%nat as Hklt by (by apply lookup_lt_Some in Hk).
  assert (length on1 = S k) as HSk by (subst k; lia).
  assert (∃ c1, node_coord nodes1 b' = Some c1 ∧ cl1 !! k = Some c1)
    as (c1 & Hn1 & Hc1).
  { assert (length on0 ≤ k)%nat as Hon0.
    { assert (length on1 = length on0 + length (orient p0 fetched1))%nat as Hl
        by (subst on1; apply length_app).
      destruct (orient p0 fetched1); [done|]. simpl in Hl. lia. }
    assert (orient p0 fetched1 !! (k - length on0)%nat = Some b') as Hu.
    { subst on1. by rewrite lookup_app_r in Hk. }
    destruct (Forall2_lookup_l _ _ _ _ _ Hcs1 Hu) as (c1 & Hc1 & Hn1).
    exists c1. split; [done|]. subst cl1.
    rewrite lookup_app_r by lia. by rewrite <- Hlen0. }
  assert (∃ c2, node_coord nodes2 b' = Some c2 ∧ cs2 !! 0%nat = Some c2)
    as (c2 & Hn2 & Hc2).
  { rewrite head_lookup in Hhead.
    destruct (Forall2_lookup_l _ _ _ _ _ Hcs2 Hhead) as (c2 & Hc2 & Hn2).
    by exists c2. }
  eexists _, _, _, c1, c2. split.
  { unfold master_path. rewrite Hrel. simpl. rewrite Hwl. simpl.
    replace (pre ++ w1 :: w2 :: post) with ((pre ++ [w1]) ++ w2 :: post)
      by (by rewrite <- app_assoc).
    rewrite mfold_app, Hm1, bind_Ok, mfold_cons, Hstep2, bind_Ok, Hm3.
    simpl. done. }
  fold k.
  assert ((((on1 ++ orient b' fetched2) ++ ons) !! k) = Some b') as Ho1.
  { rewrite <- app_assoc. by rewrite lookup_app_l. }
  assert ((((on1 ++ orient b' fetched2) ++ ons) !! S k) = Some b') as Ho2.
  { rewrite <- app_assoc, lookup_app_r by lia.
    rewrite HSk, Nat.sub_diag. rewrite head_lookup in Hhead.
    by rewrite lookup_app_l by (by apply lookup_lt_Some in Hhead). }
  assert ((((cl1 ++ cs2) ++ cls) !! k) = Some c1) as Hl1.
  { rewrite <- app_assoc. by rewrite lookup_app_l by lia. }
  assert ((((cl1 ++ cs2) ++ cls) !! S k) = Some c2) as Hl2.
  { rewrite <- app_assoc, lookup_app_r by lia.
    rewrite <- Hlen1, HSk, Nat.sub_diag.
    by rewrite lookup_app_l by (by apply lookup_lt_Some in Hc2). }
  do 6 (split; [done|]). split; [by rewrite Hl1, Hl2, <- Hn1, <- Hn2|].
  intros start_node end_node s e Hs He Hsk Hke.
  eexists. edestruct trim_range as (Hr & _ & Hi); [|exact Hs|exact He| |].
  - unfold master_path. rewrite Hrel. simpl. rewrite Hwl. simpl.
    replace (pre ++ w1 :: w2 :: post) with ((pre ++ [w1]) ++ w2 :: post)
      by (by rewrite <- app_assoc).
    rewrite mfold_app, Hm1, bind_Ok, mfold_cons, Hstep2, bind_Ok, Hm3.
    simpl. done.
  - lia.
  - split; [exact Hr|]. split.
    + rewrite Hi by lia. replace (s + (k - s))%nat with k by lia. done.
    + rewrite Hi by lia. replace (s + S (k - s))%nat with (S k) by lia. done.
Qed.

(** ** The dispatcher *)

Lemma bind_calls {A B : Type} (P : @call num → Prop) (m : M A) (f : A → M B) :
  Forall P m.2 → (∀ a, Forall P (f a).2) → Forall P (bind m f).2.
Proof.
  intros Hm Hf. destruct m as [[a|e] tr]; simpl in *; [|done].
  specialize (Hf a). destruct (f a) as [r tr']. simpl in *.
  by apply Forall_app.
Qed.

Lemma mmap_calls {X Y : Type} (P : @call num → Prop) (f : X → M Y) (l : list X) :
  (∀ x, Forall P (f x).2) → Forall P (mmap f l).2.
Proof.
  intros Hf. induction l as [|x l IH]; simpl; [done|].
  apply bind_calls; [done|]. intros y.
  apply bind_calls; [done|]. intros ys. done.
Qed.

Lemma mfold_calls {S X : Type} (P : @call num → Prop) (body : S → X → M S)
    (l : list X) (s : S) :
  (∀ s x, Forall P (body s x).2) → Forall P (mfold body l s).2.
Proof.
  intros Hb. revert s. induction l as [|x l IH]; intros s; simpl; [done|].
  by apply bind_calls.
Qed.

Lemma node_to_geojson_coords_calls (i : Z) :
  (node_to_geojson_coords env i).2 = [CallNodeGet i].
Proof. unfold node_to_geojson_coords. simpl. by destruct (NodeGet env i). Qed.

Lemma get_route_from_osrm_calls (t : Leg) (sc ec : option (list num)) :
  Forall (call_of_strategy WaypointRouter) (get_route_from_osrm env t sc ec).2.
Proof.
  unfold get_route_from_osrm. apply bind_calls.
  - destruct (route_waypoints t) as [wps|].
    + apply bind_calls; [|done]. apply mmap_calls. intros i.
      rewrite node_to_geojson_coords_calls. by repeat constructor.
    + by destruct (waypoint_coords t).
  - intros [t' wcs]. apply bind_calls; [by destruct (mode t')|].
    intros m. apply bind_calls; [|done]. unfold get_route_coords.
    destruct (osrm_mode m); [|done]. simpl.
    destruct (get_route_points env _ _ _); by repeat constructor.
Qed.

Lemma get_coords_for_relation_calls (rid a b : Z) :
  Forall (call_of_strategy RelationStitcher) (get_coords_for_relation env rid a b).2.
Proof.
  unfold get_coords_for_relation. apply bind_calls; [|by intros [? ?]].
  unfold master_path. apply bind_calls; [by repeat constructor|].
  intros rd. apply bind_calls; [done|]. intros wl.
  apply bind_calls; [|by intros [[? ?] ?]]. apply mfold_calls.
  intros [[on cl] p] w. unfold relation_step. apply bind_calls.
  - unfold get_coords_for_way. apply bind_calls; [by repeat constructor|done].
  - intros [? ?]. by apply bind_calls.
Qed.

Lemma get_route_from_relation_calls (t : Leg) :
  Forall (call_of_strategy RelationStitcher) (get_route_from_relation env t).2.
Proof.
  unfold get_route_from_relation.
  destruct (relation t); [|done]. destruct (start_loc t) as [sl|]; [|done].
  destruct (osm_id sl); [|done]. destruct (end_loc t) as [el|]; [|done].
  destruct (osm_id el); [|done]. apply get_coords_for_relation_calls.
Qed.

Lemma after_calls_bind {A B : Type} (a : A) (tr : list (@call num)) (f : A → M B) :
  bind (Ok a, tr) f = after_calls tr (f a).
Proof. unfold after_calls. apply bind_Ok. Qed.

Lemma after_calls_app {A : Type} (tr1 tr2 : list (@call num)) (m : M A) :
  after_calls tr1 (after_calls tr2 m) = after_calls (tr1 ++ tr2) m.
Proof. unfold after_calls. simpl. by rewrite app_assoc. Qed.

Lemma validate_and_fill_leg_route (t : Leg) sl sc el ec tr1 tr2 :
  _fill_coords_from_id env (start_loc t) = (Ok (sl, sc), tr1) →
  _fill_coords_from_id env (end_loc t) = (Ok (el, ec), tr2) →
  validate_and_fill_leg env t =
    after_calls (tr1 ++ tr2)
      (let* (t', route_coords) :=
         route_of_leg env (set_end_loc (set_start_loc t sl) el) sc ec in
       match route_coords with
       | Some route_coords =>
           ret (set_route_coords t' (map coords_swap route_coords))
       | None => raise (UnboundLocalError "route_coords")
       end).
Proof.
  intros Hs He. unfold validate_and_fill_leg.
  rewrite Hs, after_calls_bind. cbn [end_loc set_start_loc].
  rewrite He, after_calls_bind. apply after_calls_app.
Qed.

(** C5. The dispatch of [validate_and_fill_leg], once the two locations
    of the leg are resolved. If [route_waypoints] or [waypoint_coords]
    is there, the route is the one of [get_route_from_osrm], which calls
    only [NodeGet] and the router: for node-id waypoints it resolves
    them first and routes from start over their coordinates to end, and
    stores these coordinates in the leg; for waypoint coordinates alone
    it routes from start over these coordinates to end, by
    [get_route_coords] in both cases. If neither is there and
    [polyline] is, the route is the decoded polyline and the only call
    is to the decoder. If none of these is there and [relation] is, the
    route is the one of [get_route_from_relation], which calls only
    [RelationGet] and [WayFull]: it stitches the relation between the
    [osm_id]s of the start and of the end location, and fails without a
    call when one of the two locations is [None] or has no [osm_id]. If
    none of the fields is there, the leg fails (on the unbound
    [route_coords]). *)
Theorem validate_and_fill_leg_dispatch (t : Leg) sl sc el ec tr1 tr2 :
  _fill_coords_from_id env (start_loc t) = (Ok (sl, sc), tr1) →
  _fill_coords_from_id env (end_loc t) = (Ok (el, ec), tr2) →
  let t1 := set_end_loc (set_start_loc t sl) el in
  (is_Some (route_waypoints t) ∨ is_Some (waypoint_coords t) →
     validate_and_fill_leg env t =
       after_calls (tr1 ++ tr2) (attach_route (get_route_from_osrm env t1 sc ec))
     ∧ Forall (call_of_strategy WaypointRouter) (get_route_from_osrm env t1 sc ec).2
     ∧ ∀ waypoints, route_waypoints t = Some waypoints →
         get_route_from_osrm env t1 sc ec =
           let* wcs := mmap (node_to_geojson_coords env) waypoints in
           let* m := match mode t with
                     | Some m => ret m
                     | None => raise (KeyError (KStr "mode"))
                     end in
           let* rc := get_route_coords env m ([sc] ++ map Some wcs ++ [ec]) in
           ret (set_waypoint_coords t1 wcs, rc))
  ∧ (∀ wcs, route_waypoints t = None → waypoint_coords t = Some wcs →
       get_route_from_osrm env t1 sc ec =
         let* m := match mode t with
                   | Some m => ret m
                   | None => raise (KeyError (KStr "mode"))
                   end in
         let* rc := get_route_coords env m ([sc] ++ map Some wcs ++ [ec]) in
         ret (t1, rc))
  ∧ (route_waypoints t = None → waypoint_coords t = None →
     ∀ p, polyline t = Some p →
       validate_and_fill_leg env t =
         after_calls (tr1 ++ tr2)
           (attach_route
              (let* rc := outside (CallDecode p) (decode env p) in ret (t1, rc))))
  ∧ (route_waypoints t = None → waypoint_coords t = None → polyline t = None →
     ∀ rid, relation t = Some rid →
       validate_and_fill_leg env t =
         after_calls (tr1 ++ tr2)
           (attach_route
              (let* rc := get_route_from_relation env t1 in ret (t1, rc)))
       ∧ Forall (call_of_strategy RelationStitcher)
           (get_route_from_relation env t1).2
       ∧ ∀ l1 l2 a b, sl = Some l1 → el = Some l2 →
           osm_id l1 = Some a → osm_id l2 = Some b →
           get_route_from_relation env t1 = get_coords_for_relation env rid a b)
  ∧ (∀ rid, relation t = Some rid →
       get_route_from_relation env t1 =
         match sl with
         | None => raise TypeError
         | Some l1 =>
             match osm_id l1 with
             | None => raise (KeyError (KStr "osm_id"))
             | Some a =>
                 match el with
                 | None => raise TypeError
                 | Some l2 =>
                     match osm_id l2 with
                     | None => raise (KeyError (KStr "osm_id"))
                     | Some b => get_coords_for_relation env rid a b
                     end
                 end
             end
         end)
  ∧ (route_waypoints t = None → waypoint_coords t = None → polyline t = None →
     relation t = None →
     validate_and_fill_leg env t =
       (Err (UnboundLocalError "route_coords"), tr1 ++ tr2)).
Proof.
  intros Hs He t1.
  rewrite (validate_and_fill_leg_route t sl sc el ec tr1 tr2 Hs He). fold t1.
  unfold route_of_leg.
  assert (route_waypoints t1 = route_waypoints t) as Hrw by done.
  assert (waypoint_coords t1 = waypoint_coords t) as Hwc by done.
  assert (polyline t1 = polyline t) as Hpl by done.
  assert (relation t1 = relation t) as Hrl by done.
  assert (mode t1 = mode t) as Hmd by done.
  rewrite Hrw, Hwc, Hpl, Hrl.
  split; [|split; [|split; [|split; [|split]]]].
  - intros Hw. split; [|split].
    + f_equal. unfold attach_route.
      assert (bool_decide (is_Some (route_waypoints t))
              || bool_decide (is_Some (waypoint_coords t)) = true) as ->.
      { apply orb_true_iff. rewrite !bool_decide_eq_true. done. }
      rewrite bind_assoc. apply bind_ext. intros [t' rc].
      by rewrite bind_ret.
    + apply get_route_from_osrm_calls.
    + intros wps Hwps. unfold get_route_from_osrm. rewrite Hrw, Hwps.
      rewrite !bind_assoc. apply bind_ext. intros wcs.
      by rewrite bind_ret.
  - intros wcs Hn1 Hwcs. unfold get_route_from_osrm.
    rewrite Hrw, Hn1, Hwc, Hwcs, bind_ret, Hmd. done.
  - intros Hn1 Hn2 p Hp. rewrite Hn1, Hn2, Hp, !bool_decide_None, bool_decide_Some.
    cbn [orb]. f_equal. unfold attach_route, get_route_from_polyline.
    rewrite Hpl, Hp, !bind_assoc. apply bind_ext. intros rc.
    by rewrite !bind_ret.
  - intros Hn1 Hn2 Hn3 rid Hr.
    rewrite Hn1, Hn2, Hn3, Hr, !bool_decide_None, bool_decide_Some. cbn [orb].
    split; [|split].
    + f_equal. unfold attach_route. rewrite !bind_assoc.
      apply bind_ext. intros rc. by rewrite !bind_ret.
    + apply get_route_from_relation_calls.
    + intros l1 l2 a b -> -> Ha Hb. unfold get_route_from_relation.
      rewrite Hrl, Hr. subst t1. cbn [start_loc end_loc set_end_loc set_start_loc].
      by rewrite Ha, Hb.
  - intros rid Hr. unfold get_route_from_relation. rewrite Hrl, Hr. done.
  - intros Hn1 Hn2 Hn3 Hn4. rewrite Hn1, Hn2, Hn3, Hn4, !bool_decide_None.
    cbn [orb]. rewrite bind_ret. unfold after_calls, raise. cbn [fst snd].
    by rewrite app_nil_r.
Qed.

(** ** Running the dispatcher again *)

Lemma fill_coords_rerun (loc loc' : option Loc) (c : option (list num)) tr :
  _fill_coords_from_id env loc = (Ok (loc', c), tr) →
  _fill_coords_from_id env loc' = (Ok (loc', c), tr).
Proof.
  destruct loc as [l|]; simpl; [|by intros [= <- <- <-]].
  destruct (osm_id l) as [i|] eqn:Hi; [|done].
  unfold node_to_geojson_coords. simpl.
  destruct (NodeGet env i) as [d|e] eqn:Hd; simpl; [|done].
  intros [= <- <- <-]. simpl. rewrite Hi. unfold node_to_geojson_coords.
  simpl. by rewrite Hd.
Qed.

Lemma ret_inv_Ok {A : Type} (a b : A) (tr : list (@call num)) :
  ret a = (Ok b, tr) → a = b ∧ tr = [].
Proof. by intros [= -> <-]. Qed.

Lemma get_route_from_osrm_inv (t t2 : Leg) (sc ec : option (list num))
    (rc : list (list num)) tr :
  get_route_from_osrm env t sc ec = (Ok (t2, rc), tr) →
  ∃ wcs m tra trb,
    match route_waypoints t with
    | Some wps =>
        mmap (node_to_geojson_coords env) wps = (Ok wcs, tra)
        ∧ t2 = set_waypoint_coords t wcs
    | None => waypoint_coords t = Some wcs ∧ tra = [] ∧ t2 = t
    end
    ∧ mode t = Some m
    ∧ get_route_coords env m ([sc] ++ map Some wcs ++ [ec]) = (Ok rc, trb)
    ∧ tr = tra ++ trb.
Proof.
  unfold get_route_from_osrm. intros H.
  apply bind_inv_Ok in H as ([t1 wcs] & tra & tr' & H1 & H2 & ->).
  apply bind_inv_Ok in H2 as (m & trm & tr'' & Hm & H3 & ->).
  apply bind_inv_Ok in H3 as (rc' & trb & tr3 & Hrc & H4 & ->).
  apply ret_inv_Ok in H4 as [[= <- <-] ->].
  assert (mode t1 = Some m ∧ trm = []) as [Hmode ->].
  { destruct (mode t1); [|done]. by apply ret_inv_Ok in Hm as [-> ->]. }
  exists wcs, m, tra, trb. rewrite app_nil_r. simpl.
  destruct (route_waypoints t) as [wps|].
  - apply bind_inv_Ok in H1 as (wcs' & tra' & tr4 & Hw & H5 & ->).
    apply ret_inv_Ok in H5 as [[= <- <-] ->]. rewrite app_nil_r.
    done.
  - destruct (waypoint_coords t) as [wcs'|]; [|done].
    by apply ret_inv_Ok in H1 as [[= <- <-] ->].
Qed.

Lemma route_of_leg_rerun (t t2 : Leg) (sc ec : option (list num))
    (rc r0 : list (list num)) tr :
  route_of_leg env t sc ec = (Ok (t2, Some rc), tr) →
  start_loc t2 = start_loc t ∧ end_loc t2 = end_loc t
  ∧ route_of_leg env (set_route_coords t2 r0) sc ec =
      (Ok (set_route_coords t2 r0, Some rc), tr).
Proof.
  unfold route_of_leg. intros H.
  destruct (route_waypoints t) as [wps|] eqn:Hrw;
    [|destruct (waypoint_coords t) as [wcs|] eqn:Hwc;
      [|destruct (polyline t) as [p|] eqn:Hpl;
        [|destruct (relation t) as [rid|] eqn:Hrl]]];
    rewrite ?bool_decide_None, ?bool_decide_Some in H; cbn [orb] in H.
  - apply bind_inv_Ok in H as ([t' rc'] & tr1 & tr2 & H1 & H2 & ->).
    apply ret_inv_Ok in H2 as [[= -> ->] ->].
    apply get_route_from_osrm_inv in H1
      as (wcs & m & tra & trb & Hw & Hmode & Hrc & ->).
    rewrite Hrw in Hw. destruct Hw as [Hw ->].
    split; [done|]. split; [done|]. leg_fields.
    rewrite Hrw, bool_decide_Some. cbn [orb].
    unfold get_route_from_osrm. leg_fields. rewrite Hrw, Hw. simpl.
    rewrite Hmode. simpl. simpl in Hrc. rewrite Hrc. simpl.
    by rewrite !app_nil_r.
  - apply bind_inv_Ok in H as ([t' rc'] & tr1 & tr2 & H1 & H2 & ->).
    apply ret_inv_Ok in H2 as [[= -> ->] ->].
    apply get_route_from_osrm_inv in H1
      as (wcs' & m & tra & trb & Hw & Hmode & Hrc & ->).
    rewrite Hrw, Hwc in Hw. destruct Hw as ([= <-] & -> & ->).
    split; [done|]. split; [done|]. leg_fields.
    rewrite Hrw, Hwc, bool_decide_None, bool_decide_Some. cbn [orb].
    unfold get_route_from_osrm. leg_fields. rewrite Hrw, Hwc. simpl.
    rewrite Hmode. simpl. simpl in Hrc. rewrite Hrc. simpl. by rewrite !app_nil_r.
  - apply bind_inv_Ok in H as (rc' & tr1 & tr2 & H1 & H2 & ->).
    apply ret_inv_Ok in H2 as [[= <- <-] ->].
    split; [done|]. split; [done|]. leg_fields.
    rewrite Hrw, Hwc, Hpl, !bool_decide_None, bool_decide_Some. cbn [orb].
    unfold get_route_from_polyline in *. leg_fields. rewrite Hpl in *.
    rewrite H1. simpl. done.
  - apply bind_inv_Ok in H as (rc' & tr1 & tr2 & H1 & H2 & ->).
    apply ret_inv_Ok in H2 as [[= <- <-] ->].
    split; [done|]. split; [done|]. leg_fields.
    rewrite Hrw, Hwc, Hpl, Hrl, !bool_decide_None, bool_decide_Some. cbn [orb].
    unfold get_route_from_relation in *. leg_fields. rewrite Hrl in *.
    rewrite H1. simpl. done.
  - by apply ret_inv_Ok in H as [[= _ ?] _].
Qed.

Lemma set_route_coords_twice (t : Leg) (r0 : list (list num)) :
  set_route_coords (set_route_coords t r0) r0 = set_route_coords t r0.
Proof. done. Qed.

Lemma set_locs_same (t : @Leg num) :
  set_end_loc (set_start_loc t (start_loc t)) (end_loc t) = t.
Proof. by destruct t. Qed.

Lemma validate_and_fill_leg_rerun (t t' : Leg) tr :
  validate_and_fill_leg env t = (Ok t', tr) →
  validate_and_fill_leg env t' = (Ok t', tr) ∧ is_Some (route_coords t').
Proof.
  intros H.
  destruct (_fill_coords_from_id env (start_loc t)) as [[[sl sc]|e] tr1] eqn:Hs;
    [|by unfold validate_and_fill_leg in H; rewrite Hs in H].
  destruct (_fill_coords_from_id env (end_loc t)) as [[[el ec]|e] tr2] eqn:He;
    [|by unfold validate_and_fill_leg in H; rewrite Hs, after_calls_bind in H;
         cbn [end_loc set_start_loc] in H; rewrite He in H].
  rewrite (validate_and_fill_leg_route t sl sc el ec tr1 tr2 Hs He) in H.
  destruct (route_of_leg env (set_end_loc (set_start_loc t sl) el) sc ec)
    as [[[t2 [rc|]]|e] tr3] eqn:Hr; [| |]; try done.
  rewrite after_calls_bind in H. unfold after_calls in H.
  cbn [fst snd ret] in H. injection H as <- <-. split; [|done].
  destruct (route_of_leg_rerun _ _ _ _ _ (map coords_swap rc) _ Hr)
    as (Hsl & Hel & Hrr).
  cbn [start_loc end_loc set_end_loc set_start_loc] in Hsl, Hel.
  apply fill_coords_rerun in Hs, He.
  rewrite (validate_and_fill_leg_route _ sl sc el ec tr1 tr2).
  - replace sl with (start_loc (set_route_coords t2 (map coords_swap rc))) at 1
      by done.
    replace el with (end_loc (set_route_coords t2 (map coords_swap rc))) at 1
      by done.
    rewrite set_locs_same, Hrr, after_calls_bind, set_route_coords_twice.
    unfold after_calls. cbn [fst snd ret]. by rewrite !app_nil_r.
  - by cbn [start_loc set_route_coords]; rewrite Hsl.
  - by cbn [end_loc set_route_coords]; rewrite Hel.
Qed.

(** C7, as amended. The location step looks up the [osm_id] of every
    location that has one, whatever coordinates the location holds:
    when the lookup answers, the coordinates of the location become the
    pair [[lon, lat]] of the node, and when it fails the step fails,
    the call being made in both cases. So the step leaves the location
    as it is when the coordinates it holds are the ones [NodeGet] gives
    for its [osm_id], as after an earlier resolution. And running
    [validate_and_fill_leg] again on the leg that a successful run
    returned makes the same calls and returns that leg, with the same
    [route_coords]. *)
Theorem leg_resolution_rerun :
  (∀ (loc : Loc) (i : Z) (d : node_data),
     osm_id loc = Some i → NodeGet env i = Ok d →
     _fill_coords_from_id env (Some loc) =
       (Ok (Some {| osm_id := Some i;
                    coordinates := Some [node_lon d; node_lat d] |},
            Some [node_lon d; node_lat d]), [CallNodeGet i]))
  ∧ (∀ (loc : Loc) (i : Z) (e : exn),
       osm_id loc = Some i → NodeGet env i = Err e →
       _fill_coords_from_id env (Some loc) = (Err e, [CallNodeGet i]))
  ∧ (∀ (loc : Loc) (i : Z) (d : node_data),
     osm_id loc = Some i → NodeGet env i = Ok d →
     coordinates loc = Some [node_lon d; node_lat d] →
     _fill_coords_from_id env (Some loc) =
       (Ok (Some loc, Some [node_lon d; node_lat d]), [CallNodeGet i]))
  ∧ (∀ (t t' : Leg) tr,
       validate_and_fill_leg env t = (Ok t', tr) →
       validate_and_fill_leg env t' = (Ok t', tr)
       ∧ is_Some (route_coords t')).
Proof.
  split; [|split; [|split]].
  - intros [oi co] i d Hi Hd. simpl in *. subst oi.
    unfold node_to_geojson_coords. simpl. by rewrite Hd.
  - intros [oi co] i e Hi Hd. simpl in *. subst oi.
    unfold node_to_geojson_coords. simpl. by rewrite Hd.
  - intros [oi co] i d Hi Hd Hc. simpl in *. subst oi co.
    unfold node_to_geojson_coords. simpl. by rewrite Hd.
  - intros t t' tr H. by apply (validate_and_fill_leg_rerun t).
Qed.

End Properties.

(** ** The example relations *)

Lemma example_nodes_1_no_way : Forall (fun e => ¬ is_way e) example_nodes_1.
Proof. repeat constructor; by intros []. Qed.

Lemma example_nodes_2_no_way : Forall (fun e => ¬ is_way e) example_nodes_2.
Proof. repeat constructor; by intros []. Qed.

Lemma example_segment_1 : segment example_env 1 example_nodes_1 [10; 11; 12].
Proof.
  split.
  - exists []. split; [reflexivity|constructor].
  - exact example_nodes_1_no_way.
  - discriminate.
  - intros n Hn. repeat (apply elem_of_cons in Hn as [->|Hn]; [by eexists|]).
    by apply elem_of_nil in Hn.
Qed.

Lemma example_segment_2 : segment example_env 2 example_nodes_2 [12; 13; 14].
Proof.
  split.
  - exists []. split; [reflexivity|constructor].
  - exact example_nodes_2_no_way.
  - discriminate.
  - intros n Hn. repeat (apply elem_of_cons in Hn as [->|Hn]; [by eexists|]).
    by apply elem_of_nil in Hn.
Qed.

Lemma example_segment_4 : segment example_env 4 example_nodes_2 [14; 13; 12].
Proof.
  split.
  - exists []. split; [reflexivity|constructor].
  - exact example_nodes_2_no_way.
  - discriminate.
  - intros n Hn. repeat (apply elem_of_cons in Hn as [->|Hn]; [by eexists|]).
    by apply elem_of_nil in Hn.
Qed.

Lemma example_segments_7 (w : Z) :
  w ∈ [1; 2] → ∃ nodes fetched, segment example_env w nodes fetched.
Proof.
  intros Hw. apply elem_of_cons in Hw as [->|Hw];
    [eexists _, _; exact example_segment_1|].
  apply elem_of_cons in Hw as [->|Hw];
    [eexists _, _; exact example_segment_2|].
  by apply elem_of_nil in Hw.
Qed.

Lemma example_master_path_7 :
  master_path example_env 7 =
    (Ok ([10; 11; 12; 12; 13; 14],
         [[1; 1]; [1; 2]; [1; 3]; [1; 3]; [1; 4]; [1; 5]]),
     [CallRelationGet 7; CallWayFull 1; CallWayFull 2]).
Proof. vm_compute. reflexivity. Qed.

Lemma example_first_occurrence (l : list Z) (x : Z) (i : nat) :
  index l x = Ok i → first_occurrence l x i.
Proof. apply index_first. Qed.

(** C1, as amended. In the example relation of way 1 (nodes 10, 11, 12 at
    (1,1), (1,2), (1,3)) and way 2 (nodes 12, 13, 14 at (1,3), (1,4),
    (1,5)), way 2 is not reversed, the master path holds node 12 once
    per way, and the stitching from node 11 to node 13 returns the four
    coordinates (1,2), (1,3), (1,3), (1,4); the leg along that relation
    gets the [route_coords] (2,1), (3,1), (3,1), (4,1). *)
Theorem example_relation_stitch :
  get_coords_for_way example_env 2 12 =
    (Ok ([12; 13; 14], [[1; 3]; [1; 4]; [1; 5]]), [CallWayFull 2])
  ∧ get_coords_for_relation example_env 7 11 13 =
      (Ok [[1; 2]; [1; 3]; [1; 3]; [1; 4]],
       [CallRelationGet 7; CallWayFull 1; CallWayFull 2])
  ∧ ∃ t tr, validate_and_fill_leg example_env example_leg = (Ok t, tr)
            ∧ route_coords t = Some [[2; 1]; [3; 1]; [3; 1]; [4; 1]].
Proof.
  split; [by vm_compute|]. split; [by vm_compute|].
  eexists _, _. split; [by vm_compute|]. reflexivity.
Qed.

(** C1 as stated fails: the stitching does not return the three
    coordinates (1,2), (1,3), (1,4), and the leg does not get the
    [route_coords] (2,1), (3,1), (4,1). *)
Lemma example_relation_stitch_not_three :
  (get_coords_for_relation example_env 7 11 13).1
    ≠ Ok [[1; 2]; [1; 3]; [1; 4]]
  ∧ ∀ t, (validate_and_fill_leg example_env example_leg).1 = Ok t →
         route_coords t ≠ Some [[2; 1]; [3; 1]; [4; 1]].
Proof.
  split; [by vm_compute|]. vm_compute. by intros t [= <-].
Qed.

(** C7 as stated fails: the location step changes a location that
    already holds coordinates, here (0,0) at node 11, into the
    coordinates of the node; and for the leg whose two locations hold
    coordinates and whose [route_coords] is set, a run changes the two
    locations and the [route_coords]. *)
Lemma location_step_overwrites :
  (_fill_coords_from_id example_env (Some (example_loc 11 (Some [0; 0])))).1
    = Ok (Some (example_loc 11 (Some [2; 1])), Some [2; 1])
  ∧ example_loc 11 (Some [2; 1]) ≠ example_loc 11 (Some [0; 0])
  ∧ ∀ t, (validate_and_fill_leg example_env example_leg_by_hand).1 = Ok t →
         start_loc t ≠ start_loc example_leg_by_hand
         ∧ end_loc t ≠ end_loc example_leg_by_hand
         ∧ route_coords t = Some [[2; 1]; [3; 1]; [3; 1]; [4; 1]]
         ∧ route_coords t ≠ route_coords example_leg_by_hand.
Proof.
  split; [by vm_compute|]. split; [by intros [=]|].
  vm_compute. intros t [= <-]. split; [by intros [=]|].
  split; [by intros [=]|]. split; [done|by intros [=]].
Qed.

(** ** The theorems at the example data *)

(** Relation 8 keeps way 1 and way 4; relation 9 has a child relation. *)
Lemma get_way_list_filter_witness :
  get_way_list example_relation_reversed =
    Ok (ref <$> filter retained (member example_relation_reversed))
  ∧ ∃ m', m' ∈ member example_relation_parent ∧ type m' = "relation" ∧
      get_way_list example_relation_parent =
        Err (AssertionError
               "This is a parent relation for child %d, expecting only child relations"
               [ref m']).
Proof.
  split.
  - apply (proj2 (get_way_list_filter example_relation_reversed)).
    intros m Hm.
    repeat (apply elem_of_cons in Hm as [->|Hm]; [discriminate|]).
    by apply elem_of_nil in Hm.
  - apply (proj1 (get_way_list_filter example_relation_parent)
             (example_member "relation" 7 "")).
    + right. left.
    + reflexivity.
Defined.

(** TRAIN is refused; BUS goes to the router. *)
Lemma get_route_coords_by_mode_witness :
  get_route_coords example_env "TRAIN" [Some [2; 1]; Some [4; 1]] =
    (Err (NotImplementedError "OSRM does not support train modes at this time"),
     [])
  ∧ get_route_coords example_env "BUS" [Some [2; 1]; Some [4; 1]] =
      (Ok [[2; 1]; [4; 1]],
       [CallRoutePoints "BUS" [Some [2; 1]; Some [4; 1]]
          [("overview", "full"); ("geometries", "polyline"); ("steps", "false")]]).
Proof.
  split.
  - apply (proj1 (get_route_coords_by_mode example_env "TRAIN" _)).
    intros Hm. apply osrm_mode_supported in Hm. discriminate.
  - refine (proj2 (get_route_coords_by_mode example_env "BUS"
                     [Some [2; 1]; Some [4; 1]]) _).
    apply osrm_mode_supported. reflexivity.
Defined.

(** The answer for way 3 holds a way entry with the id 99. *)
Lemma way_id_mismatch_name_error_witness :
  way_entry_step 3 (-1) (@way_state_init Z)
    (EWay {| way_id := 99; nd := [10; 11; 12] |}) = Err (NameError "wl")
  ∧ get_coords_for_way example_env 3 (-1) =
      (Err (NameError "wl"), [CallWayFull 3]).
Proof.
  assert (way_id {| way_id := 99; nd := [10; 11; 12] |} ≠ 3) as Hd
    by (simpl; lia).
  destruct (way_id_mismatch_name_error example_env 3 (-1) _ Hd) as [H1 H2].
  split; [apply H1|].
  apply (H2 example_nodes_1 []); [exact example_nodes_1_no_way|reflexivity].
Defined.

(** In relation 7: node 99 is absent; from node 13 back to node 11 the
    positions are 4 and 1. *)
Lemma get_coords_for_relation_failures_witness :
  get_coords_for_relation example_env 7 99 13 =
    (Err ValueError, [CallRelationGet 7; CallWayFull 1; CallWayFull 2])
  ∧ get_coords_for_relation example_env 7 13 11 =
      (Err (AssertionError "Start index %d is before end %d" [4; 1]),
       [CallRelationGet 7; CallWayFull 1; CallWayFull 2])
  ∧ ∃ s e, first_occurrence [10; 11; 12; 12; 13; 14] 12 s
           ∧ first_occurrence [10; 11; 12; 12; 13; 14] 13 e
           ∧ get_coords_for_relation example_env 7 12 13 =
               (if bool_decide (s ≤ e)%nat
                then Ok (slice [[1; 1]; [1; 2]; [1; 3]; [1; 3]; [1; 4]; [1; 5]]
                           s (e + 1))
                else Err (AssertionError "Start index %d is before end %d"
                            [Z.of_nat s; Z.of_nat e]),
                [CallRelationGet 7; CallWayFull 1; CallWayFull 2]).
Proof.
  split; [|split].
  - apply (proj1 (get_coords_for_relation_failures example_env 7 99 13 _ _ _
                    example_master_path_7)).
    left. intros Hn.
    repeat (apply elem_of_cons in Hn as [Hn|Hn]; [discriminate|]).
    by apply elem_of_nil in Hn.
  - apply (proj2 (proj2 (get_coords_for_relation_failures example_env 7 13 11
                           _ _ _ example_master_path_7)) 4%nat 1%nat).
    + by apply example_first_occurrence.
    + by apply example_first_occurrence.
    + lia.
  - apply (proj1 (proj2 (get_coords_for_relation_failures example_env 7 12 13
                           _ _ _ example_master_path_7))).
    + do 2 right. left.
    + do 4 right. left.
Defined.

(** In relation 7, from node 11 at position 1 to node 13 at position 4. *)
Lemma get_coords_for_relation_range_witness :
  ∃ route,
    get_coords_for_relation example_env 7 11 13 =
      (Ok route, [CallRelationGet 7; CallWayFull 1; CallWayFull 2])
    ∧ route = slice [[1; 1]; [1; 2]; [1; 3]; [1; 3]; [1; 4]; [1; 5]] 1 (4 + 1)
    ∧ length route = (4 - 1 + 1)%nat
    ∧ ∀ i, (i ≤ 4 - 1)%nat →
           route !! i =
             [[1; 1]; [1; 2]; [1; 3]; [1; 3]; [1; 4]; [1; 5]] !! (1 + i)%nat.
Proof.
  apply (get_coords_for_relation_range example_env 7 11 13 _ _ _ 1%nat 4%nat
           example_master_path_7).
  - by apply example_first_occurrence.
  - by apply example_first_occurrence.
  - lia.
Defined.

(** In relation 8, way 4 is fetched from node 14 back to node 12, after
    way 1 has ended at node 12: it is reversed. *)
Lemma relation_loop_orientation_witness :
  ∃ w_coords_list,
    orient 12 [14; 13; 12] = [12; 13; 14]
    ∧ get_coords_for_way example_env 4 12 =
        (Ok ([12; 13; 14], w_coords_list), [CallWayFull 4])
    ∧ mfold (relation_step example_env) ([1] ++ [4]) ([], [], -1) =
        (Ok ([10; 11; 12] ++ [12; 13; 14],
             [[1; 1]; [1; 2]; [1; 3]] ++ w_coords_list, 14),
         CallWayFull <$> ([1] ++ [4])).
Proof.
  destruct (relation_loop_orientation example_env [1] 4 example_nodes_2
              [14; 13; 12])
    as (on & cl & p & wc & nl & Hm & _ & Hrev & _ & Hw & _ & Hl & Hloop).
  - intros w Hw. apply elem_of_cons in Hw as [->|Hw];
      [eexists _, _; exact example_segment_1|].
    by apply elem_of_nil in Hw.
  - exact example_segment_4.
  - vm_compute in Hm. injection Hm as <- <- <-.
    assert (orient 12 [14; 13; 12] = [12; 13; 14]) as Ho by reflexivity.
    rewrite Ho in Hw, Hl, Hloop. injection Hl as <-.
    exists wc. split; [reflexivity|]. split; [exact Hw|exact Hloop].
Defined.

(** In relation 7, node 12 ends way 1 and begins way 2: it stands at the
    positions 2 and 3 of the master path, and in the range from node 11
    to node 13. *)
Lemma boundary_node_twice_witness :
  ∃ on_list coords_list tr route,
    master_path example_env 7 = (Ok (on_list, coords_list), tr)
    ∧ on_list !! 2%nat = Some 12 ∧ on_list !! 3%nat = Some 12
    ∧ coords_list !! 2%nat = Some [1; 3] ∧ coords_list !! 3%nat = Some [1; 3]
    ∧ get_coords_for_relation example_env 7 11 13 = (Ok route, tr)
    ∧ route !! 1%nat = Some [1; 3] ∧ route !! 2%nat = Some [1; 3].
Proof.
  destruct (boundary_node_twice example_env 7 example_relation [] [] 1 2
              example_nodes_1 example_nodes_2 [10; 11; 12] [12; 13; 14]
              [10; 11; 12] [[1; 1]; [1; 2]; [1; 3]] 12 [CallWayFull 1])
    as (on & cl & tr & c1 & c2 & Hmp & Hk1 & Hk2 & Hn1 & Hn2 & Hc1 & Hc2
        & _ & Hrange).
  - reflexivity.
  - reflexivity.
  - exact example_segments_7.
  - exact example_segment_1.
  - exact example_segment_2.
  - reflexivity.
  - reflexivity.
  - vm_compute in Hn1, Hn2. injection Hn1 as <-. injection Hn2 as <-.
    simpl in Hk1, Hk2, Hc1, Hc2, Hrange.
    destruct (Hrange 11 13 1%nat 4%nat) as (route & Hr & Hr1 & Hr2).
    + rewrite example_master_path_7 in Hmp. injection Hmp as <- _ _.
      by apply example_first_occurrence.
    + rewrite example_master_path_7 in Hmp. injection Hmp as <- _ _.
      by apply example_first_occurrence.
    + lia.
    + lia.
    + exists on, cl, tr, route. simpl in Hr1, Hr2. done.
Defined.

(** The five example legs: waypoints (with a polyline and a relation as
    well), waypoint coordinates (with a polyline and a relation as
    well), a polyline (with a relation as well), a relation only, and
    no route source. *)
Lemma validate_and_fill_leg_dispatch_witness :
  (validate_and_fill_leg example_env example_leg_coords =
     (Ok (set_route_coords (example_located example_leg_coords)
            [[1; 2]; [1; 3]; [1; 4]]),
      [CallNodeGet 11; CallNodeGet 13;
       CallRoutePoints "CAR" [Some [2; 1]; Some [3; 1]; Some [4; 1]]
         [("overview", "full"); ("geometries", "polyline"); ("steps", "false")]])
   ∧ get_route_from_osrm example_env (example_located example_leg_waypoints)
       (Some [2; 1]) (Some [4; 1]) =
       (Ok (set_waypoint_coords (example_located example_leg_waypoints) [[3; 1]],
            [[2; 1]; [3; 1]; [4; 1]]),
        [CallNodeGet 12;
         CallRoutePoints "CAR" [Some [2; 1]; Some [3; 1]; Some [4; 1]]
           [("overview", "full"); ("geometries", "polyline"); ("steps", "false")]])
   ∧ get_route_from_relation example_env
       (set_end_loc (set_start_loc example_leg_no_start None) example_end) =
       (Err TypeError, []))
  ∧ (validate_and_fill_leg example_env example_leg_waypoints =
     after_calls [CallNodeGet 11; CallNodeGet 13]
       (attach_route
          (get_route_from_osrm example_env (example_located example_leg_waypoints)
             (Some [2; 1]) (Some [4; 1])))
   ∧ Forall (call_of_strategy WaypointRouter)
       (get_route_from_osrm example_env (example_located example_leg_waypoints)
          (Some [2; 1]) (Some [4; 1])).2)
  ∧ validate_and_fill_leg example_env example_leg_polyline =
      after_calls [CallNodeGet 11; CallNodeGet 13]
        (attach_route
           (let* rc := outside (CallDecode "abc") (decode example_env "abc") in
            ret (example_located example_leg_polyline, rc)))
  ∧ (validate_and_fill_leg example_env example_leg =
       after_calls [CallNodeGet 11; CallNodeGet 13]
         (attach_route
            (let* rc := get_route_from_relation example_env
                          (example_located example_leg) in
             ret (example_located example_leg, rc)))
     ∧ get_route_from_relation example_env (example_located example_leg) =
         get_coords_for_relation example_env 7 11 13)
  ∧ validate_and_fill_leg example_env example_leg_no_route =
      (Err (UnboundLocalError "route_coords"), [CallNodeGet 11; CallNodeGet 13]).
Proof.
  split; [|split; [|split; [|split]]].
  - split; [|split].
    + destruct (validate_and_fill_leg_dispatch example_env example_leg_coords
                  example_start (Some [2; 1]) example_end (Some [4; 1])
                  [CallNodeGet 11] [CallNodeGet 13] eq_refl eq_refl)
        as (H & Hc & _). destruct H as (H1 & _); [right; by eexists|].
      rewrite H1, (Hc [[3; 1]] eq_refl eq_refl). reflexivity.
    + destruct (validate_and_fill_leg_dispatch example_env example_leg_waypoints
                  example_start (Some [2; 1]) example_end (Some [4; 1])
                  [CallNodeGet 11] [CallNodeGet 13] eq_refl eq_refl)
        as (H & _). destruct H as (_ & _ & H3); [left; by eexists|].
      unfold example_located. rewrite (H3 [12] eq_refl). reflexivity.
    + destruct (validate_and_fill_leg_dispatch example_env example_leg_no_start
                  None None example_end (Some [4; 1])
                  [] [CallNodeGet 13] eq_refl eq_refl)
        as (_ & _ & _ & _ & H & _).
      rewrite (H 7 eq_refl). reflexivity.
  - destruct (validate_and_fill_leg_dispatch example_env example_leg_waypoints
                example_start (Some [2; 1]) example_end (Some [4; 1])
                [CallNodeGet 11] [CallNodeGet 13] eq_refl eq_refl)
      as (H & _). destruct H as (H1 & H2 & _).
    + left. by eexists.
    + split; [exact H1|exact H2].
  - destruct (validate_and_fill_leg_dispatch example_env example_leg_polyline
                example_start (Some [2; 1]) example_end (Some [4; 1])
                [CallNodeGet 11] [CallNodeGet 13] eq_refl eq_refl)
      as (_ & _ & H & _).
    exact (H eq_refl eq_refl "abc" eq_refl).
  - destruct (validate_and_fill_leg_dispatch example_env example_leg
                example_start (Some [2; 1]) example_end (Some [4; 1])
                [CallNodeGet 11] [CallNodeGet 13] eq_refl eq_refl)
      as (_ & _ & _ & H & _).
    destruct (H eq_refl eq_refl eq_refl 7 eq_refl) as (H1 & _ & H3).
    split; [exact H1|].
    exact (H3 (example_loc 11 (Some [2; 1])) (example_loc 13 (Some [4; 1]))
              11 13 eq_refl eq_refl eq_refl eq_refl).
  - destruct (validate_and_fill_leg_dispatch example_env example_leg_no_route
                example_start (Some [2; 1]) example_end (Some [4; 1])
                [CallNodeGet 11] [CallNodeGet 13] eq_refl eq_refl)
      as (_ & _ & _ & _ & _ & H).
    exact (H eq_refl eq_refl eq_refl eq_refl).
Defined.

(** A location with coordinates written by hand, a location at the
    unknown node 99, a location that holds the coordinates of its node,
    and the example leg resolved twice. *)
Lemma leg_resolution_rerun_witness :
  _fill_coords_from_id example_env (Some (example_loc 11 (Some [0; 0]))) =
    (Ok (Some (example_loc 11 (Some [2; 1])), Some [2; 1]), [CallNodeGet 11])
  ∧ _fill_coords_from_id example_env (Some (example_loc 99 (Some [0; 0]))) =
      (Err (ExternalError "no such node"), [CallNodeGet 99])
  ∧ _fill_coords_from_id example_env (Some (example_loc 11 (Some [2; 1]))) =
    (Ok (Some (example_loc 11 (Some [2; 1])), Some [2; 1]), [CallNodeGet 11])
  ∧ ∃ t' tr,
      validate_and_fill_leg example_env example_leg = (Ok t', tr)
      ∧ validate_and_fill_leg example_env t' = (Ok t', tr)
      ∧ route_coords t' = Some [[2; 1]; [3; 1]; [3; 1]; [4; 1]].
Proof.
  destruct (leg_resolution_rerun example_env) as (H1 & H2 & H3 & H4).
  split; [|split; [|split]].
  - exact (H1 (example_loc 11 (Some [0; 0])) 11
             {| node_id := 11; node_lat := 1; node_lon := 2 |}
             eq_refl eq_refl).
  - exact (H2 (example_loc 99 (Some [0; 0])) 99
             (ExternalError "no such node") eq_refl eq_refl).
  - exact (H3 (example_loc 11 (Some [2; 1])) 11
             {| node_id := 11; node_lat := 1; node_lon := 2 |}
             eq_refl eq_refl eq_refl).
  - eexists _, _. split; [vm_compute; reflexivity|].
    split; [|reflexivity].
    apply (H4 example_leg). vm_compute. reflexivity.
Defined.

(** ** More on the ways of a relation *)

Section Ways.

Context {num : Type}.
Variable env : @Env num.

Lemma get_coords_for_way_details (wid p : Z) (es : list entry) :
  WayFull env wid = Ok es →
  get_coords_for_way env wid p =
    (coords_of_way_details wid p es, [CallWayFull wid]).
Proof.
  intros Hw. unfold get_coords_for_way. rewrite Hw. simpl.
  by destruct (coords_of_way_details wid p es).
Qed.

Lemma append_coords_missing (la lo : gmap Z num) (ona : list Z)
    (cl : list (list num)) (n : Z) :
  n ∈ ona → coord_at la lo n = None →
  ∃ m, m ∈ ona ∧ coord_at la lo m = None
       ∧ rfold (append_coord la lo) ona cl = Err (KeyError (KInt m)).
Proof.
  revert cl. induction ona as [|x ona IH]; intros cl Hn Hc.
  - by apply elem_of_nil in Hn.
  - destruct (coord_at la lo x) as [c|] eqn:Hx.
    + apply elem_of_cons in Hn as [->|Hn]; [congruence|].
      simpl. unfold append_coord at 1. unfold coord_at in Hx.
      destruct (la !! x) as [a|]; [|done]. destruct (lo !! x) as [b|]; [|done].
      simpl. destruct (IH (cl ++ [[a; b]]) Hn Hc) as (m & Hm & Hmc & ->).
      exists m. split; [by right|done].
    + exists x. split; [left|]. split; [done|].
      simpl. unfold append_coord at 1. unfold coord_at in Hx.
      destruct (la !! x) as [a|]; [|done]. by destruct (lo !! x) as [b|].
Qed.

Lemma coords_functional (f : Z → option (list num)) (l : list Z)
    (cs cs' : list (list num)) :
  Forall2 (fun n c => f n = Some c) l cs →
  Forall2 (fun n c => f n = Some c) l cs' → cs = cs'.
Proof.
  intros H. revert cs'. induction H as [|n c l cs Hc _ IH]; intros cs' H'.
  - by apply Forall2_nil_inv_l in H'.
  - apply Forall2_cons_inv_l in H' as (c' & cs'' & Hc' & H' & ->).
    f_equal; [congruence|by apply IH].
Qed.

(** X1. An answer of [WayFull] that holds no way entry (an empty answer
    among them) makes [get_coords_for_way] fail on the unbound
    [ordered_node_array] at its [return]. *)
Theorem get_coords_for_way_no_way_entry (wid p : Z) (es : list entry) :
  WayFull env wid = Ok es →
  Forall (fun e => ¬ is_way e) es →
  get_coords_for_way env wid p =
    (Err (UnboundLocalError "ordered_node_array"), [CallWayFull wid]).
Proof.
  intros Hw Hes. rewrite (get_coords_for_way_details _ _ _ Hw).
  unfold coords_of_way_details. by rewrite rfold_nodes.
Qed.

(** X2. The node entries must come before the way entry: when a node of
    the way has no node entry before the way entry, whatever follows
    it, [get_coords_for_way] fails with [KeyError] on such a node. *)
Theorem get_coords_for_way_missing_node (wid p : Z) (nodes post : list entry)
    (fetched : list Z) (n : Z) :
  WayFull env wid =
    Ok (nodes ++ EWay {| way_id := wid; nd := fetched |} :: post) →
  Forall (fun e => ¬ is_way e) nodes →
  n ∈ fetched → node_coord nodes n = None →
  ∃ m, m ∈ fetched ∧ node_coord nodes m = None
       ∧ get_coords_for_way env wid p =
           (Err (KeyError (KInt m)), [CallWayFull wid]).
Proof.
  intros Hw Hnodes Hn Hc.
  assert (fetched ≠ []) as Hne by (intros ->; by apply elem_of_nil in Hn).
  destruct (append_coords_missing (node_lats nodes ∅) (node_lons nodes ∅)
              (orient p fetched) [] n) as (m & Hm & Hmc & Hr).
  { by apply orient_elem. }
  { done. }
  exists m. split; [by apply orient_elem in Hm|]. split; [done|].
  rewrite (get_coords_for_way_details _ _ _ Hw).
  unfold coords_of_way_details. rewrite rfold_app, rfold_nodes by done.
  simpl. rewrite bool_decide_eq_true_2 by done.
  destruct (reversing_orient p fetched Hne) as (b & -> & Hb).
  cbn [rbind]. rewrite Hb, Hr. done.
Qed.

(** X3. A way with an empty node list stops the loop of
    [get_coords_for_relation] with [IndexError], whatever the state of
    the loop: at the test on [ordered_node_array[-1]] when
    [prev_last_node] is set, at [w_on_list[-1]] otherwise. *)
Theorem relation_step_empty_way (on : list Z) (cl : list (list num))
    (p wid : Z) (nodes post : list entry) :
  WayFull env wid = Ok (nodes ++ EWay {| way_id := wid; nd := [] |} :: post) →
  Forall (fun e => ¬ is_way e) nodes →
  Forall (fun e => ¬ is_way e) post →
  relation_step env (on, cl, p) wid = (Err IndexError, [CallWayFull wid]).
Proof.
  intros Hw Hnodes Hpost. unfold relation_step.
  rewrite (get_coords_for_way_details _ _ _ Hw).
  unfold coords_of_way_details. rewrite rfold_app, rfold_nodes by done.
  simpl. rewrite bool_decide_eq_true_2 by done. unfold reversing.
  destruct (decide (p = -1)) as [->|Hp].
  - simpl. rewrite rfold_nodes by done. done.
  - rewrite bool_decide_eq_true_2 by done. done.
Qed.

(** X4. Reversal keeps nodes and coordinates together: when a segment is
    reversed, [get_coords_for_way] returns the reverse of the node list
    and the reverse of the coordinate list that it returns for the same
    way as first way of a relation. *)
Theorem get_coords_for_way_reversed (wid p : Z) (nodes : list entry)
    (fetched : list Z) :
  segment env wid nodes fetched →
  p ≠ -1 → last fetched = Some p →
  ∃ cs,
    get_coords_for_way env wid (-1) = (Ok (fetched, cs), [CallWayFull wid])
    ∧ get_coords_for_way env wid p =
        (Ok (reverse fetched, reverse cs), [CallWayFull wid])
    ∧ length cs = length fetched.
Proof.
  intros Hseg Hp Hl.
  destruct (get_coords_for_way_segment env wid (-1) nodes fetched Hseg)
    as (cs & H1 & Hcs).
  destruct (get_coords_for_way_segment env wid p nodes fetched Hseg)
    as (cs' & H2 & Hcs').
  assert (orient (-1) fetched = fetched) as Ho1.
  { unfold orient. rewrite decide_False; [done|]. by intros [? _]. }
  assert (orient p fetched = reverse fetched) as Ho2.
  { unfold orient. by rewrite decide_True. }
  rewrite Ho1 in H1, Hcs. rewrite Ho2 in H2, Hcs'.
  exists cs. split; [done|]. split.
  - rewrite H2. do 3 f_equal.
    eapply coords_functional; [exact Hcs'|]. by apply Forall2_reverse.
  - symmetry. by eapply Forall2_length.
Qed.

End Ways.

(** ** More on the stitching of a relation *)

Section Stitching.

Context {num : Type}.
Variable env : @Env num.

Lemma relation_step_calls (st : list Z * list (list num) * Z) (wid : Z) :
  (relation_step env st wid).2 = [CallWayFull wid].
Proof.
  destruct st as [[on cl] p]. unfold relation_step, get_coords_for_way.
  destruct (WayFull env wid) as [es|e]; simpl; [|done].
  destruct (coords_of_way_details wid p es) as [[w_on w_cl]|e]; simpl; [|done].
  by destruct (last_item w_on).
Qed.

Lemma mfold_relation_calls (wl : list Z) (st st' : list Z * list (list num) * Z)
    tr :
  mfold (relation_step env) wl st = (Ok st', tr) → tr = CallWayFull <$> wl.
Proof.
  revert st tr. induction wl as [|w wl IH]; intros st tr.
  - by intros [= _ <-].
  - rewrite mfold_cons.
    intros (st1 & tr1 & tr2 & H1 & H2 & ->)%bind_inv_Ok.
    apply IH in H2 as ->. pose proof (relation_step_calls st w) as Hc.
    rewrite H1 in Hc. simpl in Hc. by subst.
Qed.

Lemma master_path_inv (rid : Z) (on : list Z) (cl : list (list num)) tr :
  master_path env rid = (Ok (on, cl), tr) →
  ∃ rd wl p,
    RelationGet env rid = Ok rd ∧ get_way_list rd = Ok wl
    ∧ mfold (relation_step env) wl ([], [], -1) =
        (Ok (on, cl, p), CallWayFull <$> wl)
    ∧ tr = CallRelationGet rid :: (CallWayFull <$> wl).
Proof.
  unfold master_path.
  intros (rd & tr1 & tr2 & H1 & H2 & ->)%bind_inv_Ok.
  apply bind_inv_Ok in H2 as (wl & tr3 & tr4 & H3 & H4 & ->).
  apply bind_inv_Ok in H4 as ([[on' cl'] p] & tr5 & tr6 & H5 & H6 & ->).
  injection H6 as <- <- <-. injection H1 as H1 <-. injection H3 as H3 <-.
  pose proof (mfold_relation_calls _ _ _ _ H5) as ->.
  exists rd, wl, p. rewrite app_nil_r. done.
Qed.

Lemma master_path_intro (rid : Z) (rd : relation_data) (wl : list Z)
    (on : list Z) (cl : list (list num)) (p : Z) tr :
  RelationGet env rid = Ok rd → get_way_list rd = Ok wl →
  mfold (relation_step env) wl ([], [], -1) = (Ok (on, cl, p), tr) →
  master_path env rid = (Ok (on, cl), CallRelationGet rid :: tr).
Proof.
  intros H1 H2 H3. unfold master_path. rewrite H1. simpl. rewrite H2. simpl.
  rewrite H3. simpl. by rewrite app_nil_r.
Qed.

Lemma relation_step_extends (on on' : list Z) (cl cl' : list (list num))
    (p p' wid : Z) tr :
  relation_step env (on, cl, p) wid = (Ok (on', cl', p'), tr) →
  ∃ ons cls, on' = on ++ ons ∧ cl' = cl ++ cls.
Proof.
  unfold relation_step.
  intros ([w_on w_cl] & tr1 & tr2 & _ & H & _)%bind_inv_Ok.
  destruct (last_item w_on); [|done]. injection H as <- <- _ _.
  by exists w_on, w_cl.
Qed.

Lemma mfold_relation_extends (wl : list Z) (on on' : list Z)
    (cl cl' : list (list num)) (p p' : Z) tr :
  mfold (relation_step env) wl (on, cl, p) = (Ok (on', cl', p'), tr) →
  ∃ ons cls, on' = on ++ ons ∧ cl' = cl ++ cls.
Proof.
  revert on cl p tr. induction wl as [|w wl IH]; intros on cl p tr.
  - intros [= <- <- <- _]. exists [], []. by rewrite !app_nil_r.
  - rewrite mfold_cons.
    intros ([[on1 cl1] p1] & tr1 & tr2 & H1 & H2 & _)%bind_inv_Ok.
    apply relation_step_extends in H1 as (ons1 & cls1 & -> & ->).
    apply IH in H2 as (ons2 & cls2 & -> & ->).
    exists (ons1 ++ ons2), (cls1 ++ cls2). by rewrite !app_assoc.
Qed.

(** X5. The first way of a relation is never reversed: when the first
    retained way is a segment, the node list of every master path that
    is assembled begins with the nodes of that way in the order
    fetched, and the coordinate list with their coordinates. *)
Theorem master_path_first_way (rid : Z) (rd : relation_data) (w : Z)
    (wl : list Z) (nodes : list entry) (fetched : list Z)
    (on : list Z) (cl : list (list num)) tr :
  RelationGet env rid = Ok rd →
  get_way_list rd = Ok (w :: wl) →
  segment env w nodes fetched →
  master_path env rid = (Ok (on, cl), tr) →
  ∃ cs ons cls,
    on = fetched ++ ons ∧ cl = cs ++ cls
    ∧ Forall2 (fun n c => node_coord nodes n = Some c) fetched cs.
Proof.
  intros Hrd Hwl Hseg Hmp.
  apply master_path_inv in Hmp as (rd' & wl' & p & Hrd' & Hwl' & Hm & _).
  rewrite Hrd in Hrd'. injection Hrd' as <-.
  rewrite Hwl in Hwl'. injection Hwl' as <-.
  rewrite mfold_cons in Hm.
  destruct (relation_step_segment env [] [] (-1) w nodes fetched Hseg)
    as (cs & p1 & _ & Hstep & Hcs & _).
  assert (orient (-1) fetched = fetched) as Ho.
  { unfold orient. rewrite decide_False; [done|]. by intros [? _]. }
  rewrite Ho in Hstep, Hcs. rewrite Hstep, bind_Ok in Hm. simpl in Hm.
  destruct (mfold (relation_step env) wl (fetched, cs, p1))
    as [[[[on' cl'] p']|e] tr'] eqn:Hrest; [|done].
  simpl in Hm. injection Hm as <- <- _ _.
  apply mfold_relation_extends in Hrest as (ons & cls & -> & ->).
  by exists cs, ons, cls.
Qed.

(** X6. The calls of a stitching that succeeds: one [RelationGet], then
    one [WayFull] for each retained way, in the order of the members,
    and nothing else. *)
Theorem get_coords_for_relation_calls_exact (rid a b : Z)
    (route : list (list num)) tr :
  get_coords_for_relation env rid a b = (Ok route, tr) →
  ∃ rd wl, RelationGet env rid = Ok rd ∧ get_way_list rd = Ok wl
           ∧ tr = CallRelationGet rid :: (CallWayFull <$> wl).
Proof.
  unfold get_coords_for_relation.
  intros ([on cl] & tr1 & tr2 & Hmp & Ht & ->)%bind_inv_Ok.
  injection Ht as _ <-.
  apply master_path_inv in Hmp as (rd & wl & p & Hrd & Hwl & _ & ->).
  exists rd, wl. by rewrite app_nil_r.
Qed.

(** X7. A relation with a member of type "relation" is refused before
    any way is fetched: the only call is the [RelationGet]. *)
Theorem get_coords_for_relation_nested (rid a b : Z) (rd : relation_data)
    (m : member_data) :
  RelationGet env rid = Ok rd →
  m ∈ member rd → type m = "relation" →
  ∃ m', m' ∈ member rd ∧ type m' = "relation"
        ∧ get_coords_for_relation env rid a b =
            (Err (AssertionError
                    "This is a parent relation for child %d, expecting only child relations"
                    [ref m']), [CallRelationGet rid]).
Proof.
  intros Hrd Hm Ht.
  destruct (get_way_list_relation (member rd) [] m Hm Ht) as (m' & Hm' & Ht' & He).
  exists m'. split; [done|]. split; [done|].
  unfold get_coords_for_relation, master_path, get_way_list.
  rewrite Hrd. simpl. by rewrite He.
Qed.

(** X8. A relation none of whose members is retained (no member at all,
    or only nodes and platform ways) has an empty master path, and
    every stitching of it fails with [ValueError] after the
    [RelationGet] call. *)
Theorem get_coords_for_relation_no_way (rid a b : Z) (rd : relation_data) :
  RelationGet env rid = Ok rd →
  (∀ m, m ∈ member rd → type m ≠ "relation" ∧ ¬ retained m) →
  master_path env rid = (Ok ([], []), [CallRelationGet rid])
  ∧ get_coords_for_relation env rid a b = (Err ValueError, [CallRelationGet rid]).
Proof.
  intros Hrd Hm.
  assert (get_way_list rd = Ok []) as Hwl.
  { unfold get_way_list. rewrite get_way_list_acc by (intros m ?; by apply Hm).
    simpl. do 2 f_equal.
    induction (member rd) as [|m l IH]; [done|].
    rewrite filter_cons, decide_False by (apply Hm; left).
    apply IH. intros m' ?. apply Hm. by right. }
  assert (master_path env rid = (Ok ([], []), [CallRelationGet rid])) as Hmp.
  { by apply (master_path_intro rid rd [] [] [] (-1) []). }
  split; [done|].
  by rewrite (get_coords_for_relation_trim env _ _ _ _ _ _ Hmp).
Qed.

(** X9. A stitching succeeds only on a master path that holds both
    nodes, the start node first occurring at or before the first
    occurrence of the end node; its result is then never empty. *)
Theorem get_coords_for_relation_success (rid a b : Z)
    (route : list (list num)) tr :
  get_coords_for_relation env rid a b = (Ok route, tr) →
  ∃ on cl s e,
    master_path env rid = (Ok (on, cl), tr)
    ∧ first_occurrence on a s ∧ first_occurrence on b e ∧ (s ≤ e)%nat
    ∧ route = slice cl s (e + 1)
    ∧ length route = (e - s + 1)%nat.
Proof.
  intros H. assert (H' := H). unfold get_coords_for_relation in H.
  apply bind_inv_Ok in H as ([on cl] & tr1 & tr2 & Hmp & Ht & ->).
  injection Ht as Ht <-. rewrite app_nil_r in *.
  unfold trim in Ht.
  apply rbind_inv_Ok in Ht as (s & Hs & Ht).
  apply rbind_inv_Ok in Ht as (e & He & Ht).
  case_bool_decide as Hse; [|done]. injection Ht as <-.
  apply index_first in Hs, He.
  exists on, cl, s, e. do 5 (split; [done|]).
  by destruct (trim_range env _ _ _ _ _ _ _ _ Hmp Hs He Hse) as (_ & Hl & _).
Qed.

(** X10. From a node to itself: when the start and the end node are the
    same node of the master path, the stitching returns exactly one
    coordinate, the one at the first occurrence of that node. *)
Theorem get_coords_for_relation_same_node (rid a : Z) (on : list Z)
    (cl : list (list num)) tr :
  master_path env rid = (Ok (on, cl), tr) →
  a ∈ on →
  ∃ s c, first_occurrence on a s ∧ cl !! s = Some c
         ∧ get_coords_for_relation env rid a a = (Ok [c], tr).
Proof.
  intros Hmp Ha. destruct (index_present _ _ Ha) as [s Hs].
  apply index_first in Hs.
  destruct (trim_range env _ _ _ _ _ _ _ _ Hmp Hs Hs (le_n s)) as (Hr & Hl & Hi).
  rewrite Nat.sub_diag in Hl, Hi. specialize (Hi 0%nat (le_n 0)).
  rewrite Nat.add_0_r in Hi.
  destruct (slice cl s (s + 1)) as [|c [|c' r]] eqn:Hsl; try done.
  exists s, c. split; [done|]. split; [by rewrite <- Hi|done].
Qed.

End Stitching.

(** ** Nodes and coordinates of a master path *)

Section Alignment.

Context {num : Type}.
Variable env : @Env num.

Lemma node_coord_pair (nodes : list (@entry num)) (n : Z) (c : list num) :
  node_coord nodes n = Some c → ∃ la lo, c = [la; lo].
Proof.
  unfold node_coord, coord_at.
  destruct (node_lats nodes ∅ !! n) as [la|]; [|done].
  destruct (node_lons nodes ∅ !! n) as [lo|]; [|done].
  intros [= <-]. by exists la, lo.
Qed.

Lemma slice_elem {A : Type} (l : list A) (i j : nat) (x : A) :
  x ∈ slice l i j → x ∈ l.
Proof.
  unfold slice. intros (k & Hk & _)%elem_of_take.
  rewrite lookup_drop in Hk. by eapply list_elem_of_lookup_2.
Qed.

Lemma Forall2_with_elem {A B : Type} (P : A → B → Prop) (l : list A)
    (k : list B) :
  Forall2 P l k → Forall2 (fun x y => x ∈ l ∧ P x y) l k.
Proof.
  induction 1 as [|x y l k Hxy _ IH]; constructor.
  - split; [left|done].
  - eapply Forall2_impl; [exact IH|]. intros x' y' [? ?]. split; [by right|done].
Qed.

Lemma mfold_segments_aligned (wl0 wl : list Z) (on : list Z)
    (cl : list (list num)) (p : Z) :
  (∀ w, w ∈ wl → w ∈ wl0) →
  (∀ w, w ∈ wl0 → ∃ nodes fetched, segment env w nodes fetched) →
  Forall2 (on_way env wl0) on cl →
  ∃ on' cl' p',
    mfold (relation_step env) wl (on, cl, p) =
      (Ok (on', cl', p'), CallWayFull <$> wl)
    ∧ Forall2 (on_way env wl0) on' cl'.
Proof.
  revert on cl p. induction wl as [|w wl IH]; intros on cl p Hsub Hall Hal.
  - by exists on, cl, p.
  - destruct (Hall w) as (nodes & fetched & Hseg); [apply Hsub; left|].
    destruct (relation_step_segment env on cl p w nodes fetched Hseg)
      as (cs & p1 & _ & Hstep & Hcs & _).
    destruct (IH (on ++ orient p fetched) (cl ++ cs) p1)
      as (on' & cl' & p' & Hm & Hal').
    + intros w' ?. apply Hsub. by right.
    + done.
    + apply Forall2_app; [done|].
      eapply Forall2_impl; [exact (Forall2_with_elem _ _ _ Hcs)|].
      intros n c [Hn Hnc]. exists w, nodes, fetched.
      split; [apply Hsub; left|]. split; [done|].
      split; [by apply orient_elem in Hn|done].
    + exists on', cl', p'. split; [|done].
      rewrite mfold_cons, Hstep, bind_Ok, Hm. done.
Qed.

Lemma master_path_segments (rid : Z) (rd : relation_data) (wl : list Z) :
  RelationGet env rid = Ok rd → get_way_list rd = Ok wl →
  (∀ w, w ∈ wl → ∃ nodes fetched, segment env w nodes fetched) →
  ∃ on cl,
    master_path env rid =
      (Ok (on, cl), CallRelationGet rid :: (CallWayFull <$> wl))
    ∧ Forall2 (on_way env wl) on cl.
Proof.
  intros Hrd Hwl Hall.
  destruct (mfold_segments_aligned wl wl [] [] (-1)) as (on & cl & p & Hm & Hal);
    [done|done|constructor|].
  exists on, cl. split; [|done].
  by apply (master_path_intro env rid rd wl on cl p).
Qed.

(** X11. When every retained way of a relation is a segment, the master
    path is assembled, and its two lists run in step: they have the
    same length, and the coordinate at each position is the pair
    [[lat, lon]] that one of the ways gives to the node at that
    position. *)
Theorem master_path_aligned (rid : Z) (rd : relation_data) (wl : list Z) :
  RelationGet env rid = Ok rd → get_way_list rd = Ok wl →
  (∀ w, w ∈ wl → ∃ nodes fetched, segment env w nodes fetched) →
  ∃ on cl,
    master_path env rid =
      (Ok (on, cl), CallRelationGet rid :: (CallWayFull <$> wl))
    ∧ length on = length cl
    ∧ ∀ i n, on !! i = Some n →
        ∃ la lo, cl !! i = Some [la; lo] ∧ on_way env wl n [la; lo].
Proof.
  intros Hrd Hwl Hall.
  destruct (master_path_segments rid rd wl Hrd Hwl Hall) as (on & cl & Hmp & Hal).
  exists on, cl. split; [done|]. split; [by eapply Forall2_length|].
  intros i n Hi.
  destruct (Forall2_lookup_l _ _ _ _ _ Hal Hi) as (c & Hc & Hnc).
  assert (∃ la lo, c = [la; lo]) as (la & lo & ->).
  { destruct Hnc as (w & nodes & fetched & _ & _ & _ & Hn).
    by eapply node_coord_pair. }
  by exists la, lo.
Qed.

End Alignment.

(** ** More on the legs *)

Section Legs.

Context {num : Type}.
Variable env : @Env num.

Lemma fill_coords_inv (loc loc' : option Loc) (c : option (list num)) tr :
  _fill_coords_from_id env loc = (Ok (loc', c), tr) →
  (loc = None ∧ loc' = None ∧ c = None ∧ tr = [])
  ∨ ∃ l i d,
      loc = Some l ∧ osm_id l = Some i ∧ NodeGet env i = Ok d
      ∧ loc' = Some (set_coordinates l [node_lon d; node_lat d])
      ∧ c = Some [node_lon d; node_lat d] ∧ tr = [CallNodeGet i].
Proof.
  destruct loc as [l|]; simpl; [|intros [= <- <- <-]; by left].
  destruct (osm_id l) as [i|] eqn:Hi; [|done].
  unfold node_to_geojson_coords. simpl.
  destruct (NodeGet env i) as [d|e] eqn:Hd; simpl; [|done].
  intros [= <- <- <-]. right. by exists l, i, d.
Qed.

Lemma validate_and_fill_leg_inv (t t' : Leg) tr :
  validate_and_fill_leg env t = (Ok t', tr) →
  ∃ sl sc el ec tr1 tr2 t2 rc tr3,
    _fill_coords_from_id env (start_loc t) = (Ok (sl, sc), tr1)
    ∧ _fill_coords_from_id env (end_loc t) = (Ok (el, ec), tr2)
    ∧ route_of_leg env (set_end_loc (set_start_loc t sl) el) sc ec =
        (Ok (t2, Some rc), tr3)
    ∧ t' = set_route_coords t2 (map coords_swap rc)
    ∧ tr = (tr1 ++ tr2) ++ tr3.
Proof.
  intros H.
  destruct (_fill_coords_from_id env (start_loc t)) as [[[sl sc]|e] tr1] eqn:Hs;
    [|by unfold validate_and_fill_leg in H; rewrite Hs in H].
  destruct (_fill_coords_from_id env (end_loc t)) as [[[el ec]|e] tr2] eqn:He;
    [|by unfold validate_and_fill_leg in H; rewrite Hs, after_calls_bind in H;
         cbn [end_loc set_start_loc] in H; rewrite He in H].
  rewrite (validate_and_fill_leg_route env t sl sc el ec tr1 tr2 Hs He) in H.
  destruct (route_of_leg env (set_end_loc (set_start_loc t sl) el) sc ec)
    as [[[t2 [rc|]]|e] tr3] eqn:Hr; [| |]; try done.
  rewrite after_calls_bind in H. unfold after_calls in H.
  cbn [fst snd ret] in H. injection H as <- <-.
  exists sl, sc, el, ec, tr1, tr2, t2, rc, tr3. by rewrite app_nil_r.
Qed.

Lemma route_of_leg_inv (t t2 : Leg) (sc ec : option (list num))
    (rc : list (list num)) tr :
  route_of_leg env t sc ec = (Ok (t2, Some rc), tr) →
  ((is_Some (route_waypoints t) ∨ is_Some (waypoint_coords t))
   ∧ get_route_from_osrm env t sc ec = (Ok (t2, rc), tr))
  ∨ (route_waypoints t = None ∧ waypoint_coords t = None
     ∧ is_Some (polyline t) ∧ t2 = t
     ∧ get_route_from_polyline env t = (Ok rc, tr))
  ∨ (route_waypoints t = None ∧ waypoint_coords t = None ∧ polyline t = None
     ∧ is_Some (relation t) ∧ t2 = t
     ∧ get_route_from_relation env t = (Ok rc, tr)).
Proof.
  unfold route_of_leg. intros H.
  destruct (route_waypoints t) as [wps|] eqn:Hrw;
    [|destruct (waypoint_coords t) as [wcs|] eqn:Hwc;
      [|destruct (polyline t) as [p|] eqn:Hpl;
        [|destruct (relation t) as [rid|] eqn:Hrl]]];
    rewrite ?bool_decide_None, ?bool_decide_Some in H; cbn [orb] in H.
  - left. split; [left; by eexists|].
    apply bind_inv_Ok in H as ([t' rc'] & tr1 & tr2 & H1 & H2 & ->).
    apply ret_inv_Ok in H2 as [[= -> ->] ->]. by rewrite app_nil_r.
  - left. split; [right; by eexists|].
    apply bind_inv_Ok in H as ([t' rc'] & tr1 & tr2 & H1 & H2 & ->).
    apply ret_inv_Ok in H2 as [[= -> ->] ->]. by rewrite app_nil_r.
  - right. left.
    apply bind_inv_Ok in H as (rc' & tr1 & tr2 & H1 & H2 & ->).
    apply ret_inv_Ok in H2 as [[= <- <-] ->]. rewrite app_nil_r.
    do 2 (split; [done|]). split; [by eexists|]. done.
  - right. right.
    apply bind_inv_Ok in H as (rc' & tr1 & tr2 & H1 & H2 & ->).
    apply ret_inv_Ok in H2 as [[= <- <-] ->]. rewrite app_nil_r.
    do 3 (split; [done|]). split; [by eexists|]. done.
  - by apply ret_inv_Ok in H as [[= _ ?] _].
Qed.

Lemma get_route_from_relation_inv (t : Leg) (rc : list (list num)) tr :
  get_route_from_relation env t = (Ok rc, tr) →
  ∃ rid sl el a b,
    relation t = Some rid ∧ start_loc t = Some sl ∧ end_loc t = Some el
    ∧ osm_id sl = Some a ∧ osm_id el = Some b
    ∧ get_coords_for_relation env rid a b = (Ok rc, tr).
Proof.
  unfold get_route_from_relation.
  destruct (relation t) as [rid|]; [|done].
  destruct (start_loc t) as [sl|]; [|done].
  destruct (osm_id sl) as [a|] eqn:Ha; [|done].
  destruct (end_loc t) as [el|]; [|done].
  destruct (osm_id el) as [b|] eqn:Hb; [|done].
  intros H. by exists rid, sl, el, a, b.
Qed.

Lemma get_coords_for_relation_inv (rid a b : Z) (route : list (list num)) tr :
  get_coords_for_relation env rid a b = (Ok route, tr) →
  ∃ on cl s e,
    master_path env rid = (Ok (on, cl), tr)
    ∧ first_occurrence on a s ∧ first_occurrence on b e ∧ (s ≤ e)%nat
    ∧ route = slice cl s (e + 1).
Proof.
  intros H. unfold get_coords_for_relation in H.
  apply bind_inv_Ok in H as ([on cl] & tr1 & tr2 & Hmp & Ht & ->).
  injection Ht as Ht <-. rewrite app_nil_r in *.
  unfold trim in Ht.
  apply rbind_inv_Ok in Ht as (s & Hs & Ht).
  apply rbind_inv_Ok in Ht as (e & He & Ht).
  case_bool_decide as Hse; [|done]. injection Ht as <-.
  apply index_first in Hs, He. by exists on, cl, s, e.
Qed.

(** X12. A leg that is routed along a relation whose retained ways are
    all segments: every entry of its [route_coords] is the pair
    [[lon, lat]] of a node of one of these ways, the swap of the pair
    [[lat, lon]] that the way gives to the node. *)
Theorem relation_leg_route_coords (t t' : Leg) (rid : Z)
    (rd : relation_data) (wl : list Z) tr :
  route_waypoints t = None → waypoint_coords t = None → polyline t = None →
  relation t = Some rid →
  RelationGet env rid = Ok rd → get_way_list rd = Ok wl →
  (∀ w, w ∈ wl → ∃ nodes fetched, segment env w nodes fetched) →
  validate_and_fill_leg env t = (Ok t', tr) →
  ∃ rc,
    route_coords t' = Some rc
    ∧ rc ≠ []
    ∧ ∀ c, c ∈ rc →
        ∃ n la lo, on_way env wl n [la; lo] ∧ c = [lo; la].
Proof.
  intros Hrw Hwc Hpl Hrl Hrd Hwl Hall H.
  apply validate_and_fill_leg_inv in H
    as (sl & sc & el & ec & tr1 & tr2 & t2 & rc & tr3 & _ & _ & Hr & -> & _).
  apply route_of_leg_inv in Hr as [[[Hs|Hs] _]|[(_ & _ & Hs & _)|Hr]].
  - cbn [route_waypoints set_end_loc set_start_loc] in Hs.
    rewrite Hrw in Hs. by destruct Hs.
  - cbn [waypoint_coords set_end_loc set_start_loc] in Hs.
    rewrite Hwc in Hs. by destruct Hs.
  - cbn [polyline set_end_loc set_start_loc] in Hs.
    rewrite Hpl in Hs. by destruct Hs.
  - destruct Hr as (_ & _ & _ & _ & -> & Hr).
    apply get_route_from_relation_inv in Hr
      as (rid' & sl' & el' & a & b & Hrid & _ & _ & _ & _ & Hr).
    cbn [relation set_end_loc set_start_loc] in Hrid.
    rewrite Hrl in Hrid. injection Hrid as <-.
    apply get_coords_for_relation_inv in Hr
      as (on & cl & s & e & Hmp & Hs & He & Hse & ->).
    destruct (master_path_segments env rid rd wl Hrd Hwl Hall)
      as (on' & cl' & Hmp' & Hal).
    rewrite Hmp in Hmp'. injection Hmp' as <- <- _.
    exists (map coords_swap (slice cl s (e + 1))). split; [done|]. split.
    + destruct (trim_range env _ _ _ _ _ _ _ _ Hmp Hs He Hse) as (_ & Hl & _).
      intros Hnil. apply (f_equal length) in Hnil.
      rewrite length_map, Hl in Hnil. simpl in Hnil. lia.
    + intros c Hc. apply list_elem_of_In, in_map_iff in Hc as (c0 & <- & Hc0).
      apply list_elem_of_In, slice_elem in Hc0.
      apply list_elem_of_lookup in Hc0 as [i Hi].
      destruct (Forall2_lookup_r _ _ _ _ _ Hal Hi) as (n & _ & Hn).
      assert (∃ la lo, c0 = [la; lo]) as (la & lo & ->).
      { destruct Hn as (w & nodes & fetched & _ & _ & _ & Hn).
        by eapply node_coord_pair. }
      by exists n, la, lo.
Qed.

Lemma mmap_node_coords_inv (wps : list Z) (wcs : list (list num)) tr :
  mmap (node_to_geojson_coords env) wps = (Ok wcs, tr) →
  ∃ ds, Forall2 (fun i d => NodeGet env i = Ok d) wps ds
        ∧ wcs = map (fun d => [node_lon d; node_lat d]) ds
        ∧ tr = map CallNodeGet wps.
Proof.
  revert wcs tr. induction wps as [|i wps IH]; intros wcs tr; simpl.
  - intros [= <- <-]. by exists [].
  - intros (c & tr1 & tr2 & H1 & H2 & ->)%bind_inv_Ok.
    apply bind_inv_Ok in H2 as (cs & tr3 & tr4 & H3 & H4 & ->).
    apply ret_inv_Ok in H4 as [<- ->].
    apply IH in H3 as (ds & Hds & -> & ->).
    unfold node_to_geojson_coords in H1. simpl in H1.
    destruct (NodeGet env i) as [d|e] eqn:Hd; simpl in H1; [|done].
    injection H1 as <- <-. exists (d :: ds).
    split; [by constructor|]. split; [done|]. simpl. by rewrite app_nil_r.
Qed.

Lemma mmap_node_coords_ok (wps : list Z) (ds : list node_data) :
  Forall2 (fun i d => NodeGet env i = Ok d) wps ds →
  mmap (node_to_geojson_coords env) wps =
    (Ok (map (fun d => [node_lon d; node_lat d]) ds), map CallNodeGet wps).
Proof.
  induction 1 as [|i d wps ds Hd _ IH]; simpl; [done|].
  unfold node_to_geojson_coords at 1. simpl. rewrite Hd. simpl.
  rewrite IH. simpl. by rewrite app_nil_r.
Qed.

Lemma get_route_coords_inv (m : string) (l : list (option (list num)))
    (rc : list (list num)) tr :
  get_route_coords env m l = (Ok rc, tr) →
  m ∈ supported_modes
  ∧ get_route_points env m l overview_geometry_params = Ok rc
  ∧ tr = [CallRoutePoints m l overview_geometry_params].
Proof.
  unfold get_route_coords. destruct (osrm_mode m) eqn:Hm; [|done].
  apply osrm_mode_supported in Hm. simpl.
  destruct (get_route_points env m l overview_geometry_params); simpl; [|done].
  by intros [= <- <-].
Qed.

(** X13. A leg with node-id waypoints that is routed: every waypoint was
    looked up once, in order; the router was then called once, with the
    start coordinate, the pairs [[lon, lat]] of the waypoints in order
    and the end coordinate; and the leg's [waypoint_coords] now holds
    these pairs, whatever it held before. *)
Theorem get_route_from_osrm_waypoints (t t2 : Leg)
    (sc ec : option (list num)) (rc : list (list num)) (wps : list Z) tr :
  route_waypoints t = Some wps →
  get_route_from_osrm env t sc ec = (Ok (t2, rc), tr) →
  ∃ ds m,
    Forall2 (fun i d => NodeGet env i = Ok d) wps ds
    ∧ let wcs := map (fun d => [node_lon d; node_lat d]) ds in
      let coords := sc :: map Some wcs ++ [ec] in
      t2 = set_waypoint_coords t wcs
      ∧ mode t = Some m ∧ m ∈ supported_modes
      ∧ get_route_points env m coords overview_geometry_params = Ok rc
      ∧ tr = map CallNodeGet wps
               ++ [CallRoutePoints m coords overview_geometry_params].
Proof.
  intros Hrw H.
  apply get_route_from_osrm_inv in H
    as (wcs & m & tra & trb & Hw & Hmode & Hrc & ->).
  rewrite Hrw in Hw. destruct Hw as [Hw ->].
  apply mmap_node_coords_inv in Hw as (ds & Hds & -> & ->).
  apply get_route_coords_inv in Hrc as (Hm & Hrp & ->).
  by exists ds, m.
Qed.

(** X14. The mode is looked at after the waypoints: for a leg with
    node-id waypoints and a mode that the router does not take, all the
    waypoints are looked up first, and then the leg fails with
    [NotImplementedError] without a call to the router. *)
Theorem get_route_from_osrm_unsupported_mode (t : Leg)
    (sc ec : option (list num)) (wps : list Z) (ds : list node_data)
    (m : string) :
  route_waypoints t = Some wps →
  Forall2 (fun i d => NodeGet env i = Ok d) wps ds →
  mode t = Some m → m ∉ supported_modes →
  get_route_from_osrm env t sc ec =
    (Err (NotImplementedError "OSRM does not support train modes at this time"),
     map CallNodeGet wps).
Proof.
  intros Hrw Hds Hmode Hm. unfold get_route_from_osrm.
  rewrite Hrw, (mmap_node_coords_ok _ _ Hds). simpl. rewrite Hmode. simpl.
  unfold get_route_coords.
  destruct (osrm_mode m) eqn:Ho; [by apply osrm_mode_supported in Ho|].
  simpl. by rewrite !app_nil_r.
Qed.

Lemma fill_coords_resolved (loc loc' : option Loc) (c : option (list num)) tr :
  _fill_coords_from_id env loc = (Ok (loc', c), tr) → resolved env loc loc'.
Proof.
  intros [(-> & -> & _)|(l & i & d & -> & Hi & Hd & -> & _)]%fill_coords_inv;
    [done|].
  simpl. by exists i, d.
Qed.

(** X15. What a successful [validate_and_fill_leg] changes: the keys
    [mode], [route_waypoints], [polyline] and [relation] are as before,
    [waypoint_coords] too unless the leg has node-id waypoints, each
    location keeps its [osm_id] and holds the pair [[lon, lat]] of that
    node, and [route_coords] is set. *)
Theorem validate_and_fill_leg_frame (t t' : Leg) tr :
  validate_and_fill_leg env t = (Ok t', tr) →
  mode t' = mode t ∧ route_waypoints t' = route_waypoints t
  ∧ polyline t' = polyline t ∧ relation t' = relation t
  ∧ (route_waypoints t = None → waypoint_coords t' = waypoint_coords t)
  ∧ resolved env (start_loc t) (start_loc t')
  ∧ resolved env (end_loc t) (end_loc t')
  ∧ is_Some (route_coords t').
Proof.
  intros H.
  apply validate_and_fill_leg_inv in H
    as (sl & sc & el & ec & tr1 & tr2 & t2 & rc & tr3 & Hs & He & Hr & -> & _).
  apply fill_coords_resolved in Hs, He.
  assert (t2 = set_end_loc (set_start_loc t sl) el
          ∨ ∃ wps wcs, route_waypoints t = Some wps
              ∧ t2 = set_waypoint_coords (set_end_loc (set_start_loc t sl) el) wcs)
    as [->|(wps & wcs & Hrw & ->)].
  { apply route_of_leg_inv in Hr as [[_ Hr]|[Hr|Hr]].
    - apply get_route_from_osrm_inv in Hr
        as (wcs & m & tra & trb & Hw & _).
      cbn [route_waypoints set_end_loc set_start_loc] in Hw.
      destruct (route_waypoints t) as [wps|] eqn:Hrw.
      + right. exists wps, wcs. by destruct Hw as [_ ->].
      + left. by destruct Hw as (_ & _ & ->).
    - left. by destruct Hr as (_ & _ & _ & -> & _).
    - left. by destruct Hr as (_ & _ & _ & _ & -> & _). }
  - by repeat split.
  - repeat split; try done. intros Hn. congruence.
Qed.

(** X16. A leg whose [start_loc] is [None]. Along a relation it fails
    with [TypeError] when the [osm_id] of the start is read, before the
    relation is asked for; with waypoint coordinates and a mode that
    the router takes, the router is called with [None] as first
    coordinate. *)
Theorem leg_without_start_loc (t : Leg) (el : option Loc)
    (ec : option (list num)) tr2 :
  start_loc t = None →
  _fill_coords_from_id env (end_loc t) = (Ok (el, ec), tr2) →
  route_waypoints t = None →
  (waypoint_coords t = None → polyline t = None → is_Some (relation t) →
   validate_and_fill_leg env t = (Err TypeError, tr2))
  ∧ (∀ wcs m, waypoint_coords t = Some wcs → mode t = Some m →
       m ∈ supported_modes →
       (validate_and_fill_leg env t).2 =
         tr2 ++ [CallRoutePoints m (None :: map Some wcs ++ [ec])
                   overview_geometry_params]).
Proof.
  intros Hsl He Hrw.
  assert (_fill_coords_from_id env (start_loc t) = (Ok (None, None), []))
    as Hs by (by rewrite Hsl).
  rewrite (validate_and_fill_leg_route env t None None el ec [] tr2 Hs He).
  unfold route_of_leg, after_calls.
  cbn [route_waypoints waypoint_coords polyline relation set_end_loc
       set_start_loc]. rewrite Hrw.
  split.
  - intros Hwc Hpl [rid Hrl]. rewrite Hwc, Hpl, Hrl.
    rewrite !bool_decide_None, bool_decide_Some. cbn [orb].
    unfold get_route_from_relation.
    cbn [relation start_loc set_end_loc set_start_loc]. rewrite Hrl.
    simpl. by rewrite app_nil_r.
  - intros wcs m Hwc Hmode Hm. rewrite Hwc.
    rewrite bool_decide_None, bool_decide_Some. cbn [orb].
    unfold get_route_from_osrm.
    cbn [route_waypoints waypoint_coords mode set_end_loc set_start_loc].
    rewrite Hrw, Hwc, bind_ret. cbn [mode set_end_loc set_start_loc].
    rewrite Hmode, bind_ret. unfold get_route_coords.
    apply osrm_mode_supported in Hm. rewrite Hm. simpl.
    by destruct (get_route_points env m _ _).
Qed.

End Legs.

(** ** The stages over the whole specification *)

Section StageProperties.

Context {num settings : Type}.
Variable env : @Env num.
Variable sensing_configs : gmap string (@Config settings).

Lemma mmap_cons {X Y : Type} (f : X → @M num Y) (x : X) (l : list X) :
  mmap f (x :: l) =
    bind (f x) (fun y => bind (mmap f l) (fun ys => ret (y :: ys))).
Proof. done. Qed.

Lemma mmap_inv_Ok {X Y : Type} (f : X → @M num Y) (l : list X) (ys : list Y) tr :
  mmap f l = (Ok ys, tr) →
  Forall2 (fun x y => ∃ tr', f x = (Ok y, tr')) l ys.
Proof.
  revert ys tr. induction l as [|x l IH]; intros ys tr.
  - intros [= <- _]. constructor.
  - rewrite mmap_cons.
    intros (y & tr1 & tr2 & H1 & H2 & _)%bind_inv_Ok.
    apply bind_inv_Ok in H2 as (ys' & tr3 & tr4 & H3 & H4 & _).
    apply ret_inv_Ok in H4 as [<- _]. constructor; [by exists tr1|eauto].
Qed.

Lemma mmap_rerun {X : Type} (f : X → @M num X) (l ys : list X) tr :
  (∀ x y tr', f x = (Ok y, tr') → f y = (Ok y, tr')) →
  mmap f l = (Ok ys, tr) → mmap f ys = (Ok ys, tr).
Proof.
  intros Hf. revert ys tr. induction l as [|x l IH]; intros ys tr.
  - by intros [= <- <-].
  - rewrite mmap_cons.
    intros (y & tr1 & tr2 & H1 & H2 & ->)%bind_inv_Ok.
    apply bind_inv_Ok in H2 as (ys' & tr3 & tr4 & H3 & H4 & ->).
    apply ret_inv_Ok in H4 as [<- ->].
    rewrite mmap_cons, (Hf _ _ _ H1), bind_Ok, (IH _ _ H3). done.
Qed.

Lemma mmap_abort {X Y : Type} (f : X → @M num Y) (pre post : list X) (x : X)
    (ys : list Y) (e : exn) tr1 tr2 :
  mmap f pre = (Ok ys, tr1) → f x = (Err e, tr2) →
  mmap f (pre ++ x :: post) = (Err e, tr1 ++ tr2).
Proof.
  revert ys tr1. induction pre as [|x0 pre IH]; intros ys tr1.
  - intros [= _ <-] Hx. simpl. by rewrite Hx.
  - rewrite mmap_cons.
    intros (y & tra & trb & H1 & H2 & ->)%bind_inv_Ok Hx.
    apply bind_inv_Ok in H2 as (ys' & trc & trd & H3 & H4 & ->).
    apply ret_inv_Ok in H4 as [_ ->].
    rewrite <- app_comm_cons, mmap_cons, H1, bind_Ok, (IH _ _ H3 Hx).
    simpl. by rewrite app_nil_r, app_assoc.
Qed.

Lemma eval_trip_step_legs (t t' : Trip) tr :
  eval_trip_step env t = (Ok t', tr) →
  match t, t' with
  | Multimodal _, Multimodal _ | Unimodal _, Unimodal _ => True
  | _, _ => False
  end
  ∧ Forall2 (fun l l' => ∃ tr', validate_and_fill_leg env l = (Ok l', tr'))
      (trip_legs t) (trip_legs t').
Proof.
  destruct t as [legs|l]; simpl.
  - intros (legs' & tr1 & tr2 & H1 & H2 & _)%bind_inv_Ok.
    apply ret_inv_Ok in H2 as [<- _]. split; [done|]. simpl.
    by eapply mmap_inv_Ok.
  - intros (l' & tr1 & tr2 & H1 & H2 & _)%bind_inv_Ok.
    apply ret_inv_Ok in H2 as [<- _]. split; [done|]. simpl.
    constructor; [by exists tr1|constructor].
Qed.

Lemma validate_and_fill_eval_trips_inv (spec spec' : @Spec num settings) tr :
  validate_and_fill_eval_trips env spec = (Ok spec', tr) →
  ∃ trips, mmap (eval_trip_step env) (evaluation_trips spec) = (Ok trips, tr)
           ∧ spec' = {| calibration_tests := calibration_tests spec;
                        evaluation_trips := trips;
                        sensing_settings := sensing_settings spec |}.
Proof.
  unfold validate_and_fill_eval_trips.
  intros (trips & tr1 & tr2 & H1 & H2 & ->)%bind_inv_Ok.
  apply ret_inv_Ok in H2 as [<- ->]. exists trips. by rewrite app_nil_r.
Qed.

(** X17. A successful [validate_and_fill_eval_trips] keeps the shape of
    the trips: the same number of trips, each of the same kind, with
    the same number of legs, every leg being the result of
    [validate_and_fill_leg] on the leg at its place, so that every leg
    has its [route_coords]; the calibration tests and the sensing
    settings are as before. *)
Theorem validate_and_fill_eval_trips_legs (spec spec' : @Spec num settings) tr :
  validate_and_fill_eval_trips env spec = (Ok spec', tr) →
  calibration_tests spec' = calibration_tests spec
  ∧ sensing_settings spec' = sensing_settings spec
  ∧ Forall2
      (fun t t' =>
         match t, t' with
         | Multimodal _, Multimodal _ | Unimodal _, Unimodal _ => True
         | _, _ => False
         end
         ∧ Forall2 (fun l l' => ∃ tr', validate_and_fill_leg env l = (Ok l', tr'))
             (trip_legs t) (trip_legs t'))
      (evaluation_trips spec) (evaluation_trips spec')
  ∧ ∀ t' l', t' ∈ evaluation_trips spec' → l' ∈ trip_legs t' →
             is_Some (route_coords l').
Proof.
  intros (trips & Hm & ->)%validate_and_fill_eval_trips_inv. simpl.
  do 2 (split; [done|]).
  assert (Forall2
      (fun t t' =>
         match t, t' with
         | Multimodal _, Multimodal _ | Unimodal _, Unimodal _ => True
         | _, _ => False
         end
         ∧ Forall2 (fun l l' => ∃ tr', validate_and_fill_leg env l = (Ok l', tr'))
             (trip_legs t) (trip_legs t'))
      (evaluation_trips spec) trips) as HF.
  { eapply Forall2_impl; [by eapply mmap_inv_Ok|].
    intros t t' [tr' Ht]. by eapply eval_trip_step_legs. }
  split; [done|]. intros t' l' Ht' Hl'.
  apply list_elem_of_lookup in Ht' as [i Hi].
  destruct (Forall2_lookup_r _ _ _ _ _ HF Hi) as (t & _ & _ & Hlegs).
  apply list_elem_of_lookup in Hl' as [j Hj].
  destruct (Forall2_lookup_r _ _ _ _ _ Hlegs Hj) as (l & _ & tr' & Hl).
  by apply validate_and_fill_leg_rerun in Hl as [_ ?].
Qed.

(** X18. [validate_and_fill_eval_trips] can be run again: on the
    specification that a successful run returned, it makes the same
    calls and returns that specification. *)
Theorem validate_and_fill_eval_trips_rerun (spec spec' : @Spec num settings) tr :
  validate_and_fill_eval_trips env spec = (Ok spec', tr) →
  validate_and_fill_eval_trips env spec' = (Ok spec', tr).
Proof.
  intros (trips & Hm & ->)%validate_and_fill_eval_trips_inv.
  assert (∀ (x y : Leg) tr', validate_and_fill_leg env x = (Ok y, tr') →
            validate_and_fill_leg env y = (Ok y, tr')) as Hleg.
  { intros x y tr' Hx. by apply validate_and_fill_leg_rerun in Hx as [? _]. }
  assert (∀ (x y : Trip) tr', eval_trip_step env x = (Ok y, tr') →
            eval_trip_step env y = (Ok y, tr')) as Htrip.
  { intros [legs|l] t' tr'; simpl.
    - intros (legs' & tr1 & tr2 & H1 & H2 & ->)%bind_inv_Ok.
      apply ret_inv_Ok in H2 as [<- ->]. simpl.
      by rewrite (mmap_rerun _ _ _ _ Hleg H1).
    - intros (l' & tr1 & tr2 & H1 & H2 & ->)%bind_inv_Ok.
      apply ret_inv_Ok in H2 as [<- ->]. simpl.
      by rewrite (Hleg _ _ _ H1). }
  unfold validate_and_fill_eval_trips. simpl.
  rewrite (mmap_rerun _ _ _ _ Htrip Hm). simpl. by rewrite app_nil_r.
Qed.

(** X19. The first trip that fails ends the stage: when the trips [pre]
    are filled and the trip [t] fails, every specification with the
    trips [pre], then [t], then any further trips fails with the error
    of [t], after the calls for [pre] and those of [t]; no call is made
    for a later trip. *)
Theorem validate_and_fill_eval_trips_abort (cal : list CalibrationTest)
    (ss : list SensingSetting) (pre post : list Trip) (t : Trip)
    (spec1 : @Spec num settings) (e : exn) tr1 tr2 :
  validate_and_fill_eval_trips env
    {| calibration_tests := cal; evaluation_trips := pre;
       sensing_settings := ss |} = (Ok spec1, tr1) →
  validate_and_fill_eval_trips env
    {| calibration_tests := cal; evaluation_trips := [t];
       sensing_settings := ss |} = (Err e, tr2) →
  validate_and_fill_eval_trips env
    {| calibration_tests := cal; evaluation_trips := pre ++ t :: post;
       sensing_settings := ss |} = (Err e, tr1 ++ tr2).
Proof.
  intros (trips & Hm & _)%validate_and_fill_eval_trips_inv Ht.
  simpl in Hm. unfold validate_and_fill_eval_trips in *. simpl in *.
  destruct (eval_trip_step env t) as [[t'|e'] tr'] eqn:Hstep; simpl in Ht;
    [done|]. injection Ht as <- <-.
  by rewrite (mmap_abort _ _ _ _ _ _ _ _ Hm Hstep).
Qed.

Lemma sensing_config_list_ok (l : list string) (cs : list Config) :
  sensing_config_list sensing_configs l = Ok cs
  ↔ Forall2 (fun cr c => sensing_configs !! cr = Some c) l cs.
Proof.
  revert cs. induction l as [|cr l IH]; intros cs; simpl.
  - split; [intros [= <-]; constructor|by intros ->%Forall2_nil_inv_l].
  - unfold sensing_config at 1. split.
    + destruct (sensing_configs !! cr) as [c|] eqn:Hc; [|done]. simpl.
      intros (cs' & H1 & [= <-])%rbind_inv_Ok.
      constructor; [done|by apply IH].
    + intros (c & cs' & Hc & Hl & ->)%Forall2_cons_inv_l.
      rewrite Hc. simpl. apply IH in Hl. by rewrite Hl.
Qed.

Lemma sensing_config_list_known (l : list string) :
  (∀ cr, cr ∈ l → is_Some (sensing_configs !! cr)) →
  ∃ cs, sensing_config_list sensing_configs l = Ok cs.
Proof.
  induction l as [|cr l IH]; intros H; simpl; [by eexists|].
  destruct (H cr) as [c Hc]; [left|]. unfold sensing_config at 1. rewrite Hc.
  destruct IH as [cs ->]; [intros cr' ?; apply H; by right|]. by eexists.
Qed.

Lemma sensing_config_list_err (l : list string) (e : exn) :
  sensing_config_list sensing_configs l = Err e →
  ∃ cr, cr ∈ l ∧ sensing_configs !! cr = None ∧ e = KeyError (KStr cr).
Proof.
  induction l as [|cr l IH]; simpl; [done|]. unfold sensing_config at 1.
  destruct (sensing_configs !! cr) as [c|] eqn:Hc; simpl.
  - destruct (sensing_config_list sensing_configs l) as [cs|e'] eqn:Hl;
      simpl; [done|].
    intros [= <-]. destruct (IH eq_refl) as (cr' & ? & ? & ?).
    exists cr'. split; [by right|done].
  - intros [= <-]. exists cr. split; [left|done].
Qed.

Lemma sensing_settings_loop_inv (l l' : list SensingSetting) :
  sensing_settings_loop sensing_configs l = Ok l' →
  Forall2 (fun ss ss' => sensing_setting_step sensing_configs ss = Ok ss') l l'.
Proof.
  revert l'. induction l as [|ss l IH]; intros l'; simpl.
  - intros [= <-]. constructor.
  - intros (ss' & H1 & H2)%rbind_inv_Ok.
    apply rbind_inv_Ok in H2 as (l'' & H2 & [= <-]).
    constructor; [done|by apply IH].
Qed.

Lemma sensing_settings_loop_known (l : list SensingSetting) :
  (∀ ss cr, ss ∈ l → cr ∈ compare ss → is_Some (sensing_configs !! cr)) →
  ∃ l', sensing_settings_loop sensing_configs l = Ok l'.
Proof.
  induction l as [|ss l IH]; intros H; simpl; [by eexists|].
  unfold sensing_setting_step.
  destruct (sensing_config_list_known (compare ss)) as [cs ->].
  { intros cr ?. apply (H ss); [left|done]. }
  simpl. destruct IH as [l' ->]; [|by eexists].
  intros ss' cr ? ?. apply (H ss'); [by right|done].
Qed.

Lemma sensing_settings_loop_err (l : list SensingSetting) (e : exn) :
  sensing_settings_loop sensing_configs l = Err e →
  ∃ ss cr, ss ∈ l ∧ cr ∈ compare ss
           ∧ sensing_configs !! cr = None ∧ e = KeyError (KStr cr).
Proof.
  induction l as [|ss l IH]; simpl; [done|]. unfold sensing_setting_step.
  destruct (sensing_config_list sensing_configs (compare ss))
    as [cs|e'] eqn:Hcs; simpl.
  - destruct (sensing_settings_loop sensing_configs l) as [l'|e'];
      simpl; [done|].
    intros [= <-]. destruct (IH eq_refl) as (ss' & cr & ? & ? & ? & ?).
    exists ss', cr. split; [by right|done].
  - intros [= <-]. apply sensing_config_list_err in Hcs as (cr & ? & ? & ?).
    exists ss, cr. split; [left|done].
Qed.

(** X20. [validate_and_fill_sensing_settings] succeeds when every id that
    a setting compares is a key of [sensing_configs]; and when it
    fails, it fails with [KeyError] on a compared id that is not a
    key. *)
Theorem validate_and_fill_sensing_settings_known (spec : @Spec num settings) :
  ((∀ ss cr, ss ∈ sensing_settings spec → cr ∈ compare ss →
             is_Some (sensing_configs !! cr)) →
   ∃ spec', validate_and_fill_sensing_settings sensing_configs spec = Ok spec')
  ∧ (∀ e, validate_and_fill_sensing_settings sensing_configs spec = Err e →
          ∃ ss cr, ss ∈ sensing_settings spec ∧ cr ∈ compare ss
                   ∧ sensing_configs !! cr = None ∧ e = KeyError (KStr cr)).
Proof.
  unfold validate_and_fill_sensing_settings. split.
  - intros H. destruct (sensing_settings_loop_known _ H) as [l' ->].
    by eexists.
  - intros e.
    destruct (sensing_settings_loop sensing_configs (sensing_settings spec))
      as [l'|e'] eqn:Hl; simpl; [done|].
    intros [= <-]. by apply sensing_settings_loop_err.
Qed.

(** X21. What a successful [validate_and_fill_sensing_settings] writes:
    each setting keeps its [compare] list, its [name] is the compared
    ids joined by " v/s ", and its [sensing_configs] has one entry for
    each compared id, in order, the one stored under that id; the
    number of settings, the calibration tests and the trips are as
    before. *)
Theorem validate_and_fill_sensing_settings_writes
    (spec spec' : @Spec num settings) :
  validate_and_fill_sensing_settings sensing_configs spec = Ok spec' →
  calibration_tests spec' = calibration_tests spec
  ∧ evaluation_trips spec' = evaluation_trips spec
  ∧ Forall2
      (fun ss ss' =>
         compare ss' = compare ss
         ∧ name ss' = Some (String.concat " v/s " (compare ss))
         ∧ ∃ cs, setting_configs ss' = Some cs
                 ∧ Forall2 (fun cr c => sensing_configs !! cr = Some c)
                     (compare ss) cs)
      (sensing_settings spec) (sensing_settings spec').
Proof.
  unfold validate_and_fill_sensing_settings.
  intros (l & Hl & [= <-])%rbind_inv_Ok. simpl. do 2 (split; [done|]).
  eapply Forall2_impl; [by apply sensing_settings_loop_inv|].
  intros ss ss'. unfold sensing_setting_step.
  intros (cs & Hcs & [= <-])%rbind_inv_Ok. simpl.
  do 2 (split; [done|]). exists cs. split; [done|].
  by apply sensing_config_list_ok.
Qed.

(** X22. [validate_and_fill_sensing_settings] can be run again: on the
    specification that a successful run returned, it returns that
    specification. *)
Theorem validate_and_fill_sensing_settings_rerun
    (spec spec' : @Spec num settings) :
  validate_and_fill_sensing_settings sensing_configs spec = Ok spec' →
  validate_and_fill_sensing_settings sensing_configs spec' = Ok spec'.
Proof.
  unfold validate_and_fill_sensing_settings.
  intros (l & Hl & [= <-])%rbind_inv_Ok. simpl.
  assert (sensing_settings_loop sensing_configs l = Ok l) as ->; [|done].
  apply sensing_settings_loop_inv in Hl.
  induction Hl as [|ss ss' l0 l Hss _ IH]; simpl; [done|].
  rewrite IH. unfold sensing_setting_step in *.
  apply rbind_inv_Ok in Hss as (cs & Hcs & [= <-]). simpl.
  by rewrite Hcs.
Qed.

Lemma fill_coords_calls (loc : option (@Loc num)) :
  Forall is_node_get (_fill_coords_from_id env loc).2.
Proof.
  destruct loc as [l|]; simpl; [|done]. destruct (osm_id l) as [i|]; [|done].
  apply bind_calls; [|done]. rewrite node_to_geojson_coords_calls.
  by repeat constructor.
Qed.

Lemma calibration_test_step_calls (t : CalibrationTest) :
  Forall is_node_get (calibration_test_step env sensing_configs t).2.
Proof.
  unfold calibration_test_step.
  apply bind_calls; [apply fill_coords_calls|]. intros [sl ?].
  apply bind_calls; [apply fill_coords_calls|]. intros [el ?].
  destruct (config_id (config t)); [|done]. by apply bind_calls.
Qed.

Lemma calibration_test_step_inv (t t' : CalibrationTest) tr :
  calibration_test_step env sensing_configs t = (Ok t', tr) →
  ∃ sc ec tr1 tr2 i,
    _fill_coords_from_id env (test_start_loc t) =
      (Ok (test_start_loc t', sc), tr1)
    ∧ _fill_coords_from_id env (test_end_loc t) =
        (Ok (test_end_loc t', ec), tr2)
    ∧ config_id (config t) = Some i
    ∧ sensing_configs !! i = Some (config t')
    ∧ tr = tr1 ++ tr2.
Proof.
  unfold calibration_test_step.
  intros ([sl sc] & tr1 & tr' & H1 & H2 & ->)%bind_inv_Ok.
  apply bind_inv_Ok in H2 as ([el ec] & tr2 & tr'' & H2 & H3 & ->).
  destruct (config_id (config t)) as [i|]; [|done].
  apply bind_inv_Ok in H3 as (c & tr3 & tr4 & H3 & H4 & ->).
  apply ret_inv_Ok in H4 as [<- ->]. unfold lift, sensing_config in H3.
  destruct (sensing_configs !! i) as [c'|] eqn:Hc; [|done].
  injection H3 as <- <-. exists sc, ec, tr1, tr2, i. simpl.
  by rewrite !app_nil_r.
Qed.

Lemma validate_and_fill_calibration_tests_inv (spec spec' : @Spec num settings)
    tr :
  validate_and_fill_calibration_tests env sensing_configs spec = (Ok spec', tr) →
  ∃ tests,
    mmap (calibration_test_step env sensing_configs) (calibration_tests spec) =
      (Ok tests, tr)
    ∧ spec' = {| calibration_tests := tests;
                 evaluation_trips := evaluation_trips spec;
                 sensing_settings := sensing_settings spec |}.
Proof.
  unfold validate_and_fill_calibration_tests.
  intros (tests & tr1 & tr2 & H1 & H2 & ->)%bind_inv_Ok.
  apply ret_inv_Ok in H2 as [<- ->]. exists tests. by rewrite app_nil_r.
Qed.

(** X23. What a successful [validate_and_fill_calibration_tests] does:
    the tests are as many as before; in each, the two locations hold
    the pair [[lon, lat]] of their node, and [config] is the entry of
    [sensing_configs] under the [id] the test named; the trips and the
    sensing settings are as before; and the only calls are calls to
    [NodeGet]. *)
Theorem validate_and_fill_calibration_tests_writes
    (spec spec' : @Spec num settings) tr :
  validate_and_fill_calibration_tests env sensing_configs spec = (Ok spec', tr) →
  evaluation_trips spec' = evaluation_trips spec
  ∧ sensing_settings spec' = sensing_settings spec
  ∧ Forall2
      (fun t t' =>
         resolved env (test_start_loc t) (test_start_loc t')
         ∧ resolved env (test_end_loc t) (test_end_loc t')
         ∧ ∃ i, config_id (config t) = Some i
                ∧ sensing_configs !! i = Some (config t'))
      (calibration_tests spec) (calibration_tests spec')
  ∧ Forall is_node_get tr.
Proof.
  intros (tests & Hm & ->)%validate_and_fill_calibration_tests_inv. simpl.
  do 2 (split; [done|]). split.
  - eapply Forall2_impl; [by eapply mmap_inv_Ok|].
    intros t t' [tr' Ht].
    apply calibration_test_step_inv in Ht
      as (sc & ec & tr1 & tr2 & i & Hs & He & Hi & Hc & _).
    split; [by eapply fill_coords_resolved|].
    split; [by eapply fill_coords_resolved|]. by exists i.
  - pose proof (mmap_calls is_node_get
                  (calibration_test_step env sensing_configs)
                  (calibration_tests spec) calibration_test_step_calls) as Hc.
    by rewrite Hm in Hc.
Qed.

(** X24. When every entry of [sensing_configs] carries, as its [id], the
    key it is stored under, [validate_and_fill_calibration_tests] can
    be run again: on the specification that a successful run returned,
    it makes the same calls and returns that specification. *)
Theorem validate_and_fill_calibration_tests_rerun
    (spec spec' : @Spec num settings) tr :
  (∀ k c, sensing_configs !! k = Some c → config_id c = Some k) →
  validate_and_fill_calibration_tests env sensing_configs spec = (Ok spec', tr) →
  validate_and_fill_calibration_tests env sensing_configs spec' = (Ok spec', tr).
Proof.
  intros Hself (tests & Hm & ->)%validate_and_fill_calibration_tests_inv.
  assert (∀ (x y : CalibrationTest) tr',
            calibration_test_step env sensing_configs x = (Ok y, tr') →
            calibration_test_step env sensing_configs y = (Ok y, tr')) as Hstep.
  { intros t t' tr' Ht.
    apply calibration_test_step_inv in Ht
      as (sc & ec & tr1 & tr2 & i & Hs & He & Hi & Hc & ->).
    apply fill_coords_rerun in Hs, He. unfold calibration_test_step.
    rewrite Hs, bind_Ok. cbn [fst snd]. rewrite He, bind_Ok. cbn [fst snd].
    rewrite (Hself _ _ Hc). unfold sensing_config. rewrite Hc. simpl.
    rewrite !app_nil_r. by destruct t'. }
  unfold validate_and_fill_calibration_tests. simpl.
  rewrite (mmap_rerun _ _ _ _ Hstep Hm). simpl. by rewrite app_nil_r.
Qed.

End StageProperties.

(** ** The further theorems at the example data *)

Lemma example_way_5_no_way : Forall (fun e : @entry Z => ¬ is_way e) example_way_5.
Proof. exact example_nodes_1_no_way. Qed.

(** Way 5 is answered with node entries only. *)
Lemma get_coords_for_way_no_way_entry_witness :
  get_coords_for_way example_env_more 5 (-1) =
    (Err (UnboundLocalError "ordered_node_array"), [CallWayFull 5]).
Proof.
  apply (get_coords_for_way_no_way_entry example_env_more 5 (-1) example_way_5).
  - reflexivity.
  - exact example_way_5_no_way.
Defined.

(** Way 6 is answered with its way entry first. *)
Lemma get_coords_for_way_missing_node_witness :
  ∃ m, m ∈ [10; 11; 12] ∧ node_coord (num:=Z) [] m = None
       ∧ get_coords_for_way example_env_more 6 (-1) =
           (Err (KeyError (KInt m)), [CallWayFull 6]).
Proof.
  apply (get_coords_for_way_missing_node example_env_more 6 (-1) []
           example_nodes_1 [10; 11; 12] 11).
  - reflexivity.
  - constructor.
  - right. left.
  - reflexivity.
Defined.

(** Way 7 has no node, as first way and after a way that ended at 12. *)
Lemma relation_step_empty_way_witness :
  relation_step example_env_more ([], [], -1) 7 =
    (Err IndexError, [CallWayFull 7])
  ∧ relation_step example_env_more ([10; 11; 12], [[1; 1]; [1; 2]; [1; 3]], 12) 7 =
      (Err IndexError, [CallWayFull 7]).
Proof.
  split.
  - apply (relation_step_empty_way example_env_more [] [] (-1) 7
             example_nodes_1 []);
      [reflexivity|exact example_nodes_1_no_way|constructor].
  - apply (relation_step_empty_way example_env_more _ _ 12 7
             example_nodes_1 []);
      [reflexivity|exact example_nodes_1_no_way|constructor].
Defined.

(** Way 4, fetched from node 14 back to node 12, after a way that ended
    at node 12. *)
Lemma get_coords_for_way_reversed_witness :
  ∃ cs,
    get_coords_for_way example_env 4 (-1) = (Ok ([14; 13; 12], cs), [CallWayFull 4])
    ∧ get_coords_for_way example_env 4 12 =
        (Ok (reverse [14; 13; 12], reverse cs), [CallWayFull 4])
    ∧ length cs = length [14; 13; 12].
Proof.
  apply (get_coords_for_way_reversed example_env 4 12 example_nodes_2).
  - exact example_segment_4.
  - lia.
  - reflexivity.
Defined.

(** Relation 8 begins with way 1. *)
Lemma master_path_first_way_witness :
  ∃ cs ons cls,
    [10; 11; 12; 12; 13; 14] = [10; 11; 12] ++ ons
    ∧ [[1; 1]; [1; 2]; [1; 3]; [1; 3]; [1; 4]; [1; 5]] = cs ++ cls
    ∧ Forall2 (fun n c => node_coord example_nodes_1 n = Some c) [10; 11; 12] cs.
Proof.
  apply (master_path_first_way example_env 8 example_relation_reversed 1 [4]
           example_nodes_1 [10; 11; 12] _ _
           [CallRelationGet 8; CallWayFull 1; CallWayFull 4]).
  - reflexivity.
  - reflexivity.
  - exact example_segment_1.
  - vm_compute. reflexivity.
Defined.

(** The stitching of relation 7 from node 11 to node 13. *)
Lemma get_coords_for_relation_calls_exact_witness :
  ∃ rd wl, RelationGet example_env 7 = Ok rd ∧ get_way_list rd = Ok wl
           ∧ [@CallRelationGet Z 7; CallWayFull 1; CallWayFull 2] =
               CallRelationGet 7 :: (CallWayFull <$> wl).
Proof.
  apply (get_coords_for_relation_calls_exact example_env 7 11 13
           [[1; 2]; [1; 3]; [1; 3]; [1; 4]]).
  vm_compute. reflexivity.
Defined.

(** Relation 9 has the child relation 7. *)
Lemma get_coords_for_relation_nested_witness :
  ∃ m', m' ∈ member example_relation_parent ∧ type m' = "relation"
        ∧ get_coords_for_relation example_env 9 11 13 =
            (Err (AssertionError
                    "This is a parent relation for child %d, expecting only child relations"
                    [ref m']), [CallRelationGet 9]).
Proof.
  apply (get_coords_for_relation_nested example_env 9 11 13
           example_relation_parent (example_member "relation" 7 "")).
  - reflexivity.
  - right. left.
  - reflexivity.
Defined.

(** Relation 20 has a stop node and a platform way only. *)
Lemma get_coords_for_relation_no_way_witness :
  master_path example_env_more 20 = (Ok ([], []), [CallRelationGet 20])
  ∧ get_coords_for_relation example_env_more 20 11 13 =
      (Err ValueError, [CallRelationGet 20]).
Proof.
  apply (get_coords_for_relation_no_way example_env_more 20 11 13
           example_relation_platform).
  - reflexivity.
  - intros m Hm.
    apply elem_of_cons in Hm as [->|Hm];
      [split; [discriminate|by intros [[=] _]]|].
    apply elem_of_cons in Hm as [->|Hm];
      [split; [discriminate|by intros [_ ?]]|].
    by apply elem_of_nil in Hm.
Defined.

(** The stitching of relation 7 from node 11 to node 13. *)
Lemma get_coords_for_relation_success_witness :
  ∃ on cl s e,
    master_path example_env 7 =
      (Ok (on, cl), [CallRelationGet 7; CallWayFull 1; CallWayFull 2])
    ∧ first_occurrence on 11 s ∧ first_occurrence on 13 e ∧ (s ≤ e)%nat
    ∧ [[1; 2]; [1; 3]; [1; 3]; [1; 4]] = slice cl s (e + 1)
    ∧ length [[1; 2]; [1; 3]; [1; 3]; [1; 4]] = (e - s + 1)%nat.
Proof.
  apply (get_coords_for_relation_success example_env 7 11 13).
  vm_compute. reflexivity.
Defined.

(** The stitching of relation 7 from node 12 to node 12. *)
Lemma get_coords_for_relation_same_node_witness :
  ∃ s c, first_occurrence [10; 11; 12; 12; 13; 14] 12 s
         ∧ [[1; 1]; [1; 2]; [1; 3]; [1; 3]; [1; 4]; [1; 5]] !! s = Some c
         ∧ get_coords_for_relation example_env 7 12 12 =
             (Ok [c], [CallRelationGet 7; CallWayFull 1; CallWayFull 2]).
Proof.
  apply (get_coords_for_relation_same_node example_env 7 12 _ _ _
           example_master_path_7).
  do 2 right. left.
Defined.

(** Relation 7, whose ways 1 and 2 are segments. *)
Lemma master_path_aligned_witness :
  ∃ on cl,
    master_path example_env 7 =
      (Ok (on, cl), CallRelationGet 7 :: (CallWayFull <$> [1; 2]))
    ∧ length on = length cl
    ∧ ∀ i n, on !! i = Some n →
        ∃ la lo, cl !! i = Some [la; lo] ∧ on_way example_env [1; 2] n [la; lo].
Proof.
  apply (master_path_aligned example_env 7 example_relation [1; 2]).
  - reflexivity.
  - reflexivity.
  - exact example_segments_7.
Defined.

(** The example leg along relation 7. *)
Lemma relation_leg_route_coords_witness :
  ∃ t' rc,
    (validate_and_fill_leg example_env example_leg).1 = Ok t'
    ∧ route_coords t' = Some rc
    ∧ rc ≠ []
    ∧ ∀ c, c ∈ rc →
        ∃ n la lo, on_way example_env [1; 2] n [la; lo] ∧ c = [lo; la].
Proof.
  destruct (validate_and_fill_leg example_env example_leg) as [[t'|e] tr] eqn:H;
    [|vm_compute in H; discriminate].
  destruct (relation_leg_route_coords example_env example_leg t' 7
              example_relation [1; 2] tr eq_refl eq_refl eq_refl eq_refl
              eq_refl eq_refl example_segments_7 H) as (rc & H1 & H2 & H3).
  exists t', rc. split; [reflexivity|]. split; [exact H1|].
  split; [exact H2|exact H3].
Defined.

(** The leg with the waypoint 12, from node 11 to node 13. *)
Lemma get_route_from_osrm_waypoints_witness :
  ∃ t2 rc ds m,
    Forall2 (fun i d => NodeGet example_env i = Ok d) [12] ds
    ∧ let wcs := map (fun d => [node_lon d; node_lat d]) ds in
      let coords := Some [2; 1] :: map Some wcs ++ [Some [4; 1]] in
      t2 = set_waypoint_coords (example_located example_leg_waypoints) wcs
      ∧ mode (example_located example_leg_waypoints) = Some m
      ∧ m ∈ supported_modes
      ∧ get_route_points example_env m coords overview_geometry_params = Ok rc
      ∧ (get_route_from_osrm example_env (example_located example_leg_waypoints)
           (Some [2; 1]) (Some [4; 1])).2 =
          map CallNodeGet [12]
            ++ [CallRoutePoints m coords overview_geometry_params].
Proof.
  destruct (get_route_from_osrm example_env
              (example_located example_leg_waypoints) (Some [2; 1]) (Some [4; 1]))
    as [[[t2 rc]|e] tr] eqn:H; [|vm_compute in H; discriminate].
  destruct (get_route_from_osrm_waypoints example_env
              (example_located example_leg_waypoints) t2
              (Some [2; 1]) (Some [4; 1]) rc [12] tr eq_refl H)
    as (ds & m & Hds & Ht & Hm & Hs & Hr & Htr).
  exists t2, rc, ds, m. split; [exact Hds|]. split; [exact Ht|].
  split; [exact Hm|]. split; [exact Hs|]. split; [exact Hr|exact Htr].
Defined.

(** The leg by TRAIN with the waypoints 12 and 14. *)
Lemma get_route_from_osrm_unsupported_mode_witness :
  get_route_from_osrm example_env example_leg_train (Some [2; 1]) (Some [4; 1]) =
    (Err (NotImplementedError "OSRM does not support train modes at this time"),
     map CallNodeGet [12; 14]).
Proof.
  apply (get_route_from_osrm_unsupported_mode example_env example_leg_train
           _ _ [12; 14]
           [ {| node_id := 12; node_lat := 1; node_lon := 3 |};
             {| node_id := 14; node_lat := 1; node_lon := 5 |} ] "TRAIN").
  - reflexivity.
  - repeat constructor.
  - reflexivity.
  - intros Hm. apply osrm_mode_supported in Hm. discriminate.
Defined.

(** The leg with the waypoint 12. *)
Lemma validate_and_fill_leg_frame_witness :
  ∃ t',
    (validate_and_fill_leg example_env example_leg_waypoints).1 = Ok t'
    ∧ mode t' = mode example_leg_waypoints
    ∧ route_waypoints t' = route_waypoints example_leg_waypoints
    ∧ polyline t' = polyline example_leg_waypoints
    ∧ relation t' = relation example_leg_waypoints
    ∧ resolved example_env (start_loc example_leg_waypoints) (start_loc t')
    ∧ resolved example_env (end_loc example_leg_waypoints) (end_loc t')
    ∧ is_Some (route_coords t').
Proof.
  destruct (validate_and_fill_leg example_env example_leg_waypoints)
    as [[t'|e] tr] eqn:H; [|vm_compute in H; discriminate].
  destruct (validate_and_fill_leg_frame example_env example_leg_waypoints t' tr H)
    as (H1 & H2 & H3 & H4 & _ & H6 & H7 & H8).
  exists t'. split; [reflexivity|]. split; [exact H1|]. split; [exact H2|].
  split; [exact H3|]. split; [exact H4|]. split; [exact H6|].
  split; [exact H7|exact H8].
Defined.

(** The two legs without a start location. *)
Lemma leg_without_start_loc_witness :
  validate_and_fill_leg example_env example_leg_no_start =
    (Err TypeError, [CallNodeGet 13])
  ∧ (validate_and_fill_leg example_env example_leg_no_start_coords).2 =
      [CallNodeGet 13]
        ++ [CallRoutePoints "CAR" (None :: map Some [[3; 1]] ++ [Some [4; 1]])
              overview_geometry_params].
Proof.
  split.
  - apply (proj1 (leg_without_start_loc example_env example_leg_no_start
                    example_end (Some [4; 1]) [CallNodeGet 13]
                    eq_refl eq_refl eq_refl)).
    + reflexivity.
    + reflexivity.
    + by eexists.
  - apply (proj2 (leg_without_start_loc example_env example_leg_no_start_coords
                    example_end (Some [4; 1]) [CallNodeGet 13]
                    eq_refl eq_refl eq_refl)).
    + reflexivity.
    + reflexivity.
    + apply osrm_mode_supported. reflexivity.
Defined.

(** The trips of the example specification. *)
Lemma validate_and_fill_eval_trips_legs_witness :
  ∃ spec',
    (validate_and_fill_eval_trips example_env example_spec).1 = Ok spec'
    ∧ calibration_tests spec' = calibration_tests example_spec
    ∧ sensing_settings spec' = sensing_settings example_spec
    ∧ length (evaluation_trips spec') = 2%nat
    ∧ ∀ t' l', t' ∈ evaluation_trips spec' → l' ∈ trip_legs t' →
               is_Some (route_coords l').
Proof.
  destruct (validate_and_fill_eval_trips example_env example_spec)
    as [[spec'|e] tr] eqn:H; [|vm_compute in H; discriminate].
  destruct (validate_and_fill_eval_trips_legs example_env example_spec spec' tr H)
    as (H1 & H2 & H3 & H4).
  exists spec'. split; [reflexivity|]. split; [exact H1|]. split; [exact H2|].
  split; [|exact H4]. apply Forall2_length in H3. rewrite <- H3. reflexivity.
Defined.

Lemma validate_and_fill_eval_trips_rerun_witness :
  ∃ spec' tr,
    validate_and_fill_eval_trips example_env example_spec = (Ok spec', tr)
    ∧ validate_and_fill_eval_trips example_env spec' = (Ok spec', tr).
Proof.
  destruct (validate_and_fill_eval_trips example_env example_spec)
    as [[spec'|e] tr] eqn:H; [|vm_compute in H; discriminate].
  exists spec', tr. split; [reflexivity|].
  exact (validate_and_fill_eval_trips_rerun example_env example_spec spec' tr H).
Defined.

(** The trips of the example specification, then a leg without a route
    source, then one more leg. *)
Lemma validate_and_fill_eval_trips_abort_witness :
  validate_and_fill_eval_trips example_env
    {| calibration_tests := calibration_tests example_spec;
       evaluation_trips :=
         evaluation_trips example_spec
           ++ Unimodal example_leg_no_route :: [Unimodal example_leg];
       sensing_settings := sensing_settings example_spec |} =
    (Err (UnboundLocalError "route_coords"),
     (validate_and_fill_eval_trips example_env example_spec).2
       ++ [CallNodeGet 11; CallNodeGet 13]).
Proof.
  destruct (validate_and_fill_eval_trips example_env example_spec)
    as [[spec'|e] tr] eqn:H; [|vm_compute in H; discriminate].
  apply (validate_and_fill_eval_trips_abort example_env
           (calibration_tests example_spec) (sensing_settings example_spec)
           (evaluation_trips example_spec) [Unimodal example_leg]
           (Unimodal example_leg_no_route) spec').
  - exact H.
  - vm_compute. reflexivity.
Defined.

(** The setting of the example specification compares two known ids; a
    setting that compares "other" does not. *)
Lemma validate_and_fill_sensing_settings_known_witness :
  (∃ spec', validate_and_fill_sensing_settings example_configs example_spec
            = Ok spec')
  ∧ validate_and_fill_sensing_settings example_configs
      {| calibration_tests := @nil (@CalibrationTest Z Z);
         evaluation_trips := @nil (@Trip Z);
         sensing_settings :=
           [ {| compare := ["fixed"; "other"]; name := None;
                setting_configs := None |} ] |}
    = Err (KeyError (KStr "other")).
Proof.
  split.
  - apply (proj1 (validate_and_fill_sensing_settings_known example_configs
                    example_spec)).
    intros ss cr Hss Hcr.
    apply elem_of_cons in Hss as [->|Hss]; [|by apply elem_of_nil in Hss].
    apply elem_of_cons in Hcr as [->|Hcr]; [by eexists|].
    apply elem_of_cons in Hcr as [->|Hcr]; [by eexists|].
    by apply elem_of_nil in Hcr.
  - set (spec := {| calibration_tests := @nil (@CalibrationTest Z Z);
                    evaluation_trips := @nil (@Trip Z);
                    sensing_settings :=
                      [ {| compare := ["fixed"; "other"]; name := None;
                           setting_configs := None |} ] |}).
    destruct (validate_and_fill_sensing_settings example_configs spec)
      as [spec'|e] eqn:H; [vm_compute in H; discriminate|].
    destruct (proj2 (validate_and_fill_sensing_settings_known example_configs
                       spec) e H) as (ss & cr & _ & _ & _ & ->).
    vm_compute in H. injection H as H. by rewrite H.
Defined.

Lemma validate_and_fill_sensing_settings_writes_witness :
  ∃ spec',
    validate_and_fill_sensing_settings example_configs example_spec = Ok spec'
    ∧ Forall2
        (fun ss ss' =>
           compare ss' = compare ss
           ∧ name ss' = Some (String.concat " v/s " (compare ss))
           ∧ ∃ cs, setting_configs ss' = Some cs
                   ∧ Forall2 (fun cr c => example_configs !! cr = Some c)
                       (compare ss) cs)
        (sensing_settings example_spec) (sensing_settings spec').
Proof.
  destruct (validate_and_fill_sensing_settings example_configs example_spec)
    as [spec'|e] eqn:H; [|vm_compute in H; discriminate].
  exists spec'. split; [reflexivity|].
  exact (proj2 (proj2 (validate_and_fill_sensing_settings_writes example_configs
                         example_spec spec' H))).
Defined.

Lemma validate_and_fill_sensing_settings_rerun_witness :
  ∃ spec',
    validate_and_fill_sensing_settings example_configs example_spec = Ok spec'
    ∧ validate_and_fill_sensing_settings example_configs spec' = Ok spec'.
Proof.
  destruct (validate_and_fill_sensing_settings example_configs example_spec)
    as [spec'|e] eqn:H; [|vm_compute in H; discriminate].
  exists spec'. split; [reflexivity|].
  exact (validate_and_fill_sensing_settings_rerun example_configs example_spec
           spec' H).
Defined.

(** The calibration test of the example specification. *)
Lemma validate_and_fill_calibration_tests_writes_witness :
  ∃ spec' tr,
    validate_and_fill_calibration_tests example_env example_configs example_spec
      = (Ok spec', tr)
    ∧ length (calibration_tests spec') = 1%nat
    ∧ Forall is_node_get tr.
Proof.
  destruct (validate_and_fill_calibration_tests example_env example_configs
              example_spec) as [[spec'|e] tr] eqn:H;
    [|vm_compute in H; discriminate].
  destruct (validate_and_fill_calibration_tests_writes example_env
              example_configs example_spec spec' tr H) as (_ & _ & H3 & H4).
  exists spec', tr. split; [reflexivity|]. split; [|exact H4].
  apply Forall2_length in H3. rewrite <- H3. reflexivity.
Defined.

Lemma example_configs_ids (k : string) (c : @Config Z) :
  example_configs !! k = Some c → config_id c = Some k.
Proof.
  unfold example_configs.
  intros [[<- <-]|[_ H]]%lookup_insert_Some; [done|].
  apply lookup_insert_Some in H as [[<- <-]|[_ H]]; [done|].
  by rewrite lookup_empty in H.
Qed.

Lemma validate_and_fill_calibration_tests_rerun_witness :
  ∃ spec' tr,
    validate_and_fill_calibration_tests example_env example_configs example_spec
      = (Ok spec', tr)
    ∧ validate_and_fill_calibration_tests example_env example_configs spec'
      = (Ok spec', tr).
Proof.
  destruct (validate_and_fill_calibration_tests example_env example_configs
              example_spec) as [[spec'|e] tr] eqn:H;
    [|vm_compute in H; discriminate].
  exists spec', tr. split; [reflexivity|].
  exact (validate_and_fill_calibration_tests_rerun example_env example_configs
           example_spec spec' tr example_configs_ids H).
Defined.
